(** * uulid: a UUID-compatible ULID (github.com/brunotm/uulid)

    Shallow embedding of the Go package [uulid] and of the few standard
    library routines it calls ([encoding/hex], [encoding/binary],
    [math/bits], [time]), followed by the properties of the generator and
    of the codec.

    Conventions.
    - A Go unsigned integer of width [w] is a [Z] in [[0, 2^w)]; every
      operation that can leave the range is followed by its wrap-around.
    - A byte slice is a [list Z] of values in [[0, 256)]; a sub-slice
      [s[lo:hi]] that is written through is modelled by reading it with
      [slice] and writing it back with [splice].
    - A Go method with a pointer receiver returns the updated receiver next
      to its result; an [error] result is an [option error], [None] being
      Go's [nil].  The receiver is returned also when the call fails, as
      the caller of the Go method sees it then.
    - An index out of range aborts the call with [panic_index]. *)

From Stdlib Require Import ZArith List Lia Bool Sorted RelationClasses.
Import ListNotations.
Local Open Scope Z_scope.

(** ** Machine integers *)

Definition uint64 (z : Z) : Z := z mod 2 ^ 64.
Definition uint16 (z : Z) : Z := z mod 2 ^ 16.
Definition byte (z : Z) : Z := z mod 2 ^ 8.
(** Conversion of a 64-bit pattern to [int64] (two's complement). *)
Definition int64 (z : Z) : Z := (z + 2 ^ 63) mod 2 ^ 64 - 2 ^ 63.

Definition is_uint64 (z : Z) : Prop := 0 <= z < 2 ^ 64.
Definition is_uint16 (z : Z) : Prop := 0 <= z < 2 ^ 16.
Definition is_byte (z : Z) : Prop := 0 <= z < 256.
Definition is_bytes (l : list Z) : Prop := Forall is_byte l.

(** ** Errors *)

Inductive error : Type :=
| ErrBigTime
| ErrDataSize
| ErrBufferSize
| ErrInvalidType
| ErrMonotonicOverflow
| ErrSmallTime
| hex_ErrLength
| hex_InvalidByteError (c : Z)
| panic_index.

(** ** Slices *)

Section Slices.
Context {A : Type}.

(** [s[lo:hi]] *)
Definition slice (s : list A) (lo hi : nat) : list A :=
  firstn (hi - lo) (skipn lo s).

(** The backing array after the sub-slice starting at [lo] received the
    contents [sub]. *)
Definition splice (s : list A) (lo : nat) (sub : list A) : list A :=
  firstn lo s ++ sub ++ skipn (lo + length sub) s.

(** [s[i] = v]; [None] is the index panic. *)
Definition store (s : list A) (i : nat) (v : A) : option (list A) :=
  if Nat.ltb i (length s) then Some (firstn i s ++ v :: skipn (S i) s)
  else None.

(** Go's builtin [copy(dst, src)]: the first [min (len dst) (len src)]
    elements of [dst] are replaced. *)
Definition copy (dst src : list A) : list A :=
  firstn (length dst) src ++ skipn (length src) dst.
End Slices.

(** ** encoding/hex *)

Module hex.

Definition hextable : list Z :=
  [48; 49; 50; 51; 52; 53; 54; 55; 56; 57; 97; 98; 99; 100; 101; 102].

(** [func Encode(dst, src []byte) int]: for each [v] of [src],
    [dst[j] = hextable[v>>4]; dst[j+1] = hextable[v&0x0f]; j += 2]. *)
Fixpoint Encode_from (j : nat) (dst src : list Z) : list Z * option error :=
  match src with
  | [] => (dst, None)
  | v :: rest =>
      match store dst j (nth (Z.to_nat (Z.shiftr v 4)) hextable 0) with
      | None => (dst, Some panic_index)
      | Some dst1 =>
          match store dst1 (S j) (nth (Z.to_nat (Z.land v 15)) hextable 0) with
          | None => (dst1, Some panic_index)
          | Some dst2 => Encode_from (S (S j)) dst2 rest
          end
      end
  end.

Definition Encode (dst src : list Z) : list Z * option error :=
  Encode_from 0 dst src.

(** [func fromHexChar(c byte) (byte, bool)] *)
Definition fromHexChar (c : Z) : option Z :=
  if (48 <=? c) && (c <=? 57) then Some (c - 48)
  else if (97 <=? c) && (c <=? 102) then Some (c - 97 + 10)
  else if (65 <=? c) && (c <=? 70) then Some (c - 65 + 10)
  else None.

(** [func Decode(dst, src []byte) (int, error)]: pairs of digits are
    decoded and stored one byte at a time; the first bad digit stops the
    loop, the bytes stored before it stay in [dst]. *)
Fixpoint Decode_from (i : nat) (dst src : list Z)
  : list Z * nat * option error :=
  match src with
  | [] => (dst, i, None)
  | [p] =>
      match fromHexChar p with
      | None => (dst, i, Some (hex_InvalidByteError p))
      | Some _ => (dst, i, Some hex_ErrLength)
      end
  | p :: q :: rest =>
      match fromHexChar p with
      | None => (dst, i, Some (hex_InvalidByteError p))
      | Some a =>
          match fromHexChar q with
          | None => (dst, i, Some (hex_InvalidByteError q))
          | Some b =>
              match store dst i (byte (Z.lor (Z.shiftl a 4) b)) with
              | None => (dst, i, Some panic_index)
              | Some dst' => Decode_from (S i) dst' rest
              end
          end
      end
  end.

Definition Decode (dst src : list Z) : list Z * nat * option error :=
  Decode_from 0 dst src.

End hex.

(** ** encoding/binary, big endian *)

Module BigEndian.

(** [PutUint16(b, v)]: [_ = b[1]; b[0] = byte(v >> 8); b[1] = byte(v)]. *)
Definition PutUint16 (b : list Z) (v : Z) : list Z * option error :=
  if Nat.ltb 1 (length b)
  then (splice b 0 [byte (Z.shiftr v 8); byte v], None)
  else (b, Some panic_index).

(** [PutUint64(b, v)]: [_ = b[7]; b[0] = byte(v >> 56); ...; b[7] = byte(v)]. *)
Definition PutUint64 (b : list Z) (v : Z) : list Z * option error :=
  if Nat.ltb 7 (length b)
  then (splice b 0
          [byte (Z.shiftr v 56); byte (Z.shiftr v 48);
           byte (Z.shiftr v 40); byte (Z.shiftr v 32);
           byte (Z.shiftr v 24); byte (Z.shiftr v 16);
           byte (Z.shiftr v 8); byte v], None)
  else (b, Some panic_index).

End BigEndian.

(** ** math/bits *)

Module bits.

(** [func Mul64(x, y uint64) (hi, lo uint64)], the portable body. *)
Definition Mul64 (x y : Z) : Z * Z :=
  let mask32 := Z.shiftl 1 32 - 1 in
  let x0 := Z.land x mask32 in
  let x1 := Z.shiftr x 32 in
  let y0 := Z.land y mask32 in
  let y1 := Z.shiftr y 32 in
  let w0 := uint64 (x0 * y0) in
  let t := uint64 (uint64 (x1 * y0) + Z.shiftr w0 32) in
  let w1 := Z.land t mask32 in
  let w2 := Z.shiftr t 32 in
  let w1 := uint64 (w1 + uint64 (x0 * y1)) in
  let hi := uint64 (uint64 (uint64 (x1 * y1) + w2) + Z.shiftr w1 32) in
  let lo := uint64 (x * y) in
  (hi, lo).

End bits.

(** ** time *)

Module time.

(** A [time.Time], as the accessors [Unix] and [Nanosecond] see it:
    seconds since the Unix epoch and nanoseconds within the second. *)
Record Time : Type := mkTime { sec : Z; nsec : Z }.

Definition Millisecond : Z := 1000000.

(** [func Unix(sec int64, nsec int64) Time]; Go's [/] truncates. *)
Definition Unix (s n : Z) : Time :=
  if (n <? 0) || (n >=? 1000000000) then
    let q := Z.quot n 1000000000 in
    let s := int64 (s + q) in
    let n := int64 (n - int64 (q * 1000000000)) in
    if n <? 0 then mkTime (int64 (s - 1)) (n + 1000000000)
    else mkTime s n
  else mkTime s n.

(** [func (t Time) Unix() int64] and [func (t Time) Nanosecond() int]. *)
Definition Time_Unix (t : Time) : Z := sec t.
Definition Time_Nanosecond (t : Time) : Z := nsec t.

End time.

(** ** Package uulid: constants and the identifier *)

Definition MaxTimestamp : Z := 281474976710655.
Definition HexEncodedSize : nat := 36.
Definition BinarySize : nat := 16.

(** [type UULID [BinarySize]byte] *)
Definition UULID : Type := list Z.

Definition wf_UULID (id : UULID) : Prop :=
  length id = BinarySize /\ is_bytes id.

(** The zero value of the array type. *)
Definition UULID_zero : UULID := repeat 0 BinarySize.

(** Result of a call on a pointer receiver or a destination buffer. *)
Definition result (S : Type) : Type := (S * option error)%type.

(** Sequencing with Go's [if err != nil { return err }]. *)
Definition and_then {S : Type} (r : result S) (k : S -> result S) : result S :=
  match r with
  | (s, Some e) => (s, Some e)
  | (s, None) => k s
  end.

Notation "r >>= k" := (and_then r k) (at level 50, left associativity).

(** [func (id UULID) Timestamp() uint64] *)
Definition UULID_Timestamp (id : UULID) : Z :=
  Z.lor (Z.lor (Z.lor (Z.lor (Z.lor
    (nth 5 id 0)
    (Z.shiftl (nth 4 id 0) 8))
    (Z.shiftl (nth 3 id 0) 16))
    (Z.shiftl (nth 2 id 0) 24))
    (Z.shiftl (nth 1 id 0) 32))
    (Z.shiftl (nth 0 id 0) 40).

(** [func (id *UULID) SetTimestamp(ms uint64) (err error)] *)
Definition UULID_SetTimestamp (id : UULID) (ms : Z) : result UULID :=
  if ms >? MaxTimestamp then (id, Some ErrBigTime)
  else
    (splice id 0
       [byte (Z.shiftr ms 40); byte (Z.shiftr ms 32); byte (Z.shiftr ms 24);
        byte (Z.shiftr ms 16); byte (Z.shiftr ms 8); byte ms],
     None).

(** [func (id *UULID) SetEntropy(e []byte) (err error)] *)
Definition UULID_SetEntropy (id : UULID) (e : list Z) : result UULID :=
  if negb (Nat.eqb (length e) 10) then (id, Some ErrDataSize)
  else (splice id 6 (copy (skipn 6 id) e), None).

(** [func (id UULID) Entropy() (data []byte)] *)
Definition UULID_Entropy (id : UULID) : list Z :=
  copy (repeat 0 10%nat) (skipn 6 id).

(** ** Time codec *)

(** [func Timestamp(t time.Time) (ms uint64)] *)
Definition Timestamp (t : time.Time) : Z :=
  uint64 (uint64 (uint64 (time.Time_Unix t) * 1000)
          + uint64 (Z.quot (time.Time_Nanosecond t) time.Millisecond)).

(** [func Time(ms uint64) (t time.Time)] *)
Definition Time (ms : Z) : time.Time :=
  time.Unix (int64 (ms / 1000)) (int64 (uint64 ((ms mod 1000) * 1000000))).

Definition MaxTime : time.Time := Time MaxTimestamp.

(** [func (id UULID) Time() time.Time] *)
Definition UULID_Time (id : UULID) : time.Time := Time (UULID_Timestamp id).

(** [func (id *UULID) SetTime(t time.Time) (err error)] *)
Definition UULID_SetTime (id : UULID) (t : time.Time) : result UULID :=
  UULID_SetTimestamp id (Timestamp t).

(** ** Generator *)

(** The mutex [mu] serialises the calls of [New]; a call is modelled as
    one atomic transition of the remaining fields. *)
Record Generator : Type := mkGenerator {
  seed : Z;  (* uint64 *)
  ms : Z;    (* uint64 *)
  hi : Z;    (* uint16 *)
  lo : Z     (* uint64 *)
}.

Definition wf_Generator (r : Generator) : Prop :=
  is_uint64 (seed r) /\ 0 <= ms r <= MaxTimestamp /\
  is_uint16 (hi r) /\ is_uint64 (lo r).

Definition set_seed (r : Generator) (v : Z) := mkGenerator v (ms r) (hi r) (lo r).
Definition set_ms (r : Generator) (v : Z) := mkGenerator (seed r) v (hi r) (lo r).
Definition set_hi (r : Generator) (v : Z) := mkGenerator (seed r) (ms r) v (lo r).
Definition set_lo (r : Generator) (v : Z) := mkGenerator (seed r) (ms r) (hi r) v.

(** [func NewGeneratorWithSeed(seed uint64) (r *Generator)] *)
Definition NewGeneratorWithSeed (s : Z) : Generator := mkGenerator s 0 0 0.

(** [func (r *Generator) uint64r() (v uint64)] *)
Definition Generator_uint64r (r : Generator) : Generator * Z :=
  let r := set_seed r (uint64 (seed r + 0xa0761d6478bd642f)) in
  let '(h, l) := bits.Mul64 (Z.lxor (seed r) 0xe7037ed1a0b428db) (seed r) in
  (r, Z.lxor h l).

(** [func (r *Generator) advance(ms uint64)] *)
Definition Generator_advance (r : Generator) (now_ms : Z) : Generator :=
  let r := set_ms r now_ms in
  let '(r, v) := Generator_uint64r r in
  let r := set_hi r (uint16 v) in
  let '(r, v) := Generator_uint64r r in
  set_lo r v.

(** The two stores that end both branches of [read]:
    [binary.BigEndian.PutUint16(p[:2], r.hi)] and
    [binary.BigEndian.PutUint64(p[2:], r.lo)]. *)
Definition put_entropy (r : Generator) (p : list Z) : result (list Z) :=
  if Nat.ltb (length p) 2 then (p, Some panic_index)
  else
    (let '(s, e) := BigEndian.PutUint16 (slice p 0 2) (hi r) in
     (splice p 0 s, e)) >>= fun p =>
    let '(s, e) := BigEndian.PutUint64 (skipn 2 p) (lo r) in
    (splice p 2 s, e).

(** [func (r *Generator) read(p []byte, ms uint64) (err error)] *)
Definition Generator_read (r : Generator) (p : list Z) (now_ms : Z)
  : Generator * result (list Z) :=
  if ms r =? now_ms then
    let lo0 := lo r in
    let hi0 := hi r in
    let r := set_lo r (uint64 (lo r + 1)) in
    if lo r <? lo0 then
      let r := set_hi r (uint16 (hi r + 1)) in
      if hi r <? hi0 then (r, (p, Some ErrMonotonicOverflow))
      else (r, put_entropy r p)
    else (r, put_entropy r p)
  else
    let r := Generator_advance r now_ms in
    (r, put_entropy r p).

(** [func (r *Generator) New() (id UULID, err error)]; [now] is the value
    read from [time.Now()]. *)
Definition Generator_New (r : Generator) (now : time.Time)
  : Generator * result UULID :=
  let now_ms := Timestamp now in
  let id := UULID_zero in
  match UULID_SetTimestamp id now_ms with
  | (id, Some e) => (r, (id, Some e))
  | (id, None) =>
      let '(r, (p, err)) := Generator_read r (skipn 6 id) now_ms in
      (r, (splice id 6 p, err))
  end.

(** ** Codec *)

(** [dst[i] = v] on a slice, as a step of a [result] chain. *)
Definition store_byte (dst : list Z) (i : nat) (v : Z) : result (list Z) :=
  match store dst i v with
  | Some dst' => (dst', None)
  | None => (dst, Some panic_index)
  end.

(** [hex.Encode(dst[lo:hi], src)] *)
Definition encode_into (dst : list Z) (lo hi : nat) (src : list Z)
  : result (list Z) :=
  let '(sub, err) := hex.Encode (slice dst lo hi) src in
  (splice dst lo sub, err).

(** [_, err := hex.Decode(id[lo:hi], src)] *)
Definition decode_into (id : UULID) (lo hi : nat) (src : list Z)
  : result UULID :=
  let '(sub, _, err) := hex.Decode (slice id lo hi) src in
  (splice id lo sub, err).

(** [func (id UULID) MarshalBinaryTo(dst []byte) (err error)] *)
Definition UULID_MarshalBinaryTo (id : UULID) (dst : list Z) : result (list Z) :=
  if negb (Nat.eqb (length dst) BinarySize) then (dst, Some ErrBufferSize)
  else (copy dst id, None).

(** [func (id UULID) MarshalBinary() (data []byte, err error)] *)
Definition UULID_MarshalBinary (id : UULID) : result (list Z) :=
  UULID_MarshalBinaryTo id (repeat 0 BinarySize).

(** [func (id UULID) MarshalTextTo(dst []byte) (err error)]; ['-'] is 45. *)
Definition UULID_MarshalTextTo (id : UULID) (dst : list Z) : result (list Z) :=
  if negb (Nat.eqb (length dst) HexEncodedSize) then (dst, Some ErrBufferSize)
  else
    encode_into dst 0 8 (slice id 0 4) >>= fun dst =>
    store_byte dst 8 45 >>= fun dst =>
    encode_into dst 9 13 (slice id 4 6) >>= fun dst =>
    store_byte dst 13 45 >>= fun dst =>
    encode_into dst 14 18 (slice id 6 8) >>= fun dst =>
    store_byte dst 18 45 >>= fun dst =>
    encode_into dst 19 23 (slice id 8 10) >>= fun dst =>
    store_byte dst 23 45 >>= fun dst =>
    encode_into dst 24 36 (slice id 10 16).

(** [func (id UULID) MarshalText() (data []byte, err error)] *)
Definition UULID_MarshalText (id : UULID) : result (list Z) :=
  UULID_MarshalTextTo id (repeat 0 HexEncodedSize).

(** [func (id UULID) MarshalJSONTo(dst []byte) (err error)] *)
Definition UULID_MarshalJSONTo (id : UULID) (dst : list Z) : result (list Z) :=
  UULID_MarshalTextTo id dst.

(** [func (id UULID) MarshalJSON() (data []byte, err error)] *)
Definition UULID_MarshalJSON (id : UULID) : result (list Z) :=
  UULID_MarshalText id.

(** [func (id *UULID) String() (s string)]: the error of [MarshalTextTo]
    is dropped. *)
Definition UULID_String (id : UULID) : list Z :=
  fst (UULID_MarshalTextTo id (repeat 0 HexEncodedSize)).

(** [func (id UULID) Value() (v driver.Value, err error)] *)
Definition UULID_Value (id : UULID) : result (list Z) :=
  UULID_MarshalText id.

(** The range check that ends [parse]. *)
Definition check_timestamp (id : UULID) : result UULID :=
  if UULID_Timestamp id >? MaxTimestamp then (id, Some ErrBigTime)
  else (id, None).

(** [func parse(data []byte, id *UULID) (err error)] *)
Definition parse (data : list Z) (id : UULID) : result UULID :=
  if Nat.eqb (length data) 16 then
    check_timestamp (copy id data)
  else if Nat.eqb (length data) 32 then
    decode_into id 0 16 data >>= check_timestamp
  else if Nat.eqb (length data) 36 then
    decode_into id 0 4 (slice data 0 8) >>= fun id =>
    decode_into id 4 6 (slice data 9 13) >>= fun id =>
    decode_into id 6 8 (slice data 14 18) >>= fun id =>
    decode_into id 8 10 (slice data 19 23) >>= fun id =>
    decode_into id 10 16 (slice data 24 36) >>= check_timestamp
  else (id, Some ErrDataSize).

(** [func Parse(data []byte) (id UULID, err error)] *)
Definition Parse (data : list Z) : result UULID := parse data UULID_zero.

(** [func (id *UULID) UnmarshalBinary(data []byte) (err error)] *)
Definition UULID_UnmarshalBinary (id : UULID) (data : list Z) : result UULID :=
  if negb (Nat.eqb (length data) BinarySize) then (id, Some ErrDataSize)
  else parse data id.

(** [func (id *UULID) UnmarshalText(data []byte) (err error)] *)
Definition UULID_UnmarshalText (id : UULID) (data : list Z) : result UULID :=
  parse data id.

(** [func (id *UULID) UnmarshalJSON(data []byte) (err error)] *)
Definition UULID_UnmarshalJSON (id : UULID) (data : list Z) : result UULID :=
  parse data id.

(** The dynamic type of the [interface{}] handed to [Scan]: the values a
    database driver produces, and any other Go value. *)
Inductive source : Type :=
| src_nil
| src_string (s : list Z)
| src_bytes (b : list Z)
| src_int64 (n : Z)
| src_float64 (bits : Z)
| src_bool (b : bool)
| src_time (t : time.Time)
| src_other (type_id : nat).

(** [func (id *UULID) Scan(src interface{}) (err error)] *)
Definition UULID_Scan (id : UULID) (src : source) : result UULID :=
  match src with
  | src_nil => (id, None)
  | src_string x => parse x id
  | src_bytes x => parse x id
  | _ => (id, Some ErrInvalidType)
  end.

(** ** Views used in the statements *)

(** Big-endian value of a byte string. *)
Definition be_value (l : list Z) : Z :=
  fold_left (fun acc b => acc * 256 + b) l 0.

(** The 80-bit entropy field of an identifier, bytes 6 to 15. *)
Definition entropy80 (id : UULID) : Z := be_value (skipn 6 id).

(** The generator's 80-bit counter. *)
Definition counter80 (r : Generator) : Z := hi r * 2 ^ 64 + lo r.

(** The text of the package's tests,
    [0178a284-9eaf-b3e7-036d-5b1b9f3cd753], as bytes. *)
Definition encoded : list Z :=
  [48;49;55;56;97;50;56;52;45;57;101;97;102;45;98;51;101;55;45;
   48;51;54;100;45;53;98;49;98;57;102;51;99;100;55;53;51].

(** Repeated division by 256: the byte-wise right shifts. *)
Definition div256 (n : nat) (v : Z) : Z := Nat.iter n (fun x => x / 256) v.

(** The ten bytes [read] stores for the counter halves [h] and [l]. *)
Definition entropy_bytes (h l : Z) : list Z :=
  [byte (Z.shiftr h 8); byte h;
   byte (Z.shiftr l 56); byte (Z.shiftr l 48); byte (Z.shiftr l 40);
   byte (Z.shiftr l 32); byte (Z.shiftr l 24); byte (Z.shiftr l 16);
   byte (Z.shiftr l 8); byte l].

(** The six bytes [SetTimestamp] stores. *)
Definition timestamp_bytes (t : Z) : list Z :=
  [byte (Z.shiftr t 40); byte (Z.shiftr t 32); byte (Z.shiftr t 24);
   byte (Z.shiftr t 16); byte (Z.shiftr t 8); byte t].

(** The entropy step as the specification words it: the seed advances by
    [0xA0761D6478BD642F] in 64-bit modular arithmetic; the output is the
    exclusive or of the high and low 64-bit halves of the 128-bit product
    of [(seed XOR 0xE7037ED1A0B428DB)] and [seed]. *)
Definition spec_step_seed (s : Z) : Z := (s + 0xA0761D6478BD642F) mod 2 ^ 64.

Definition spec_step_output (s : Z) : Z :=
  let s' := spec_step_seed s in
  let product := Z.lxor s' 0xE7037ED1A0B428DB * s' in
  Z.lxor (product / 2 ^ 64) (product mod 2 ^ 64).

(** ** Views of the codec *)

(** The two digits [hex.Encode] writes for one byte. *)
Definition hex_digits (v : Z) : list Z :=
  [nth (Z.to_nat (Z.shiftr v 4)) hex.hextable 0;
   nth (Z.to_nat (Z.land v 15)) hex.hextable 0].

(** Lower-case hexadecimal rendering of a byte string. *)
Definition hex_string (vs : list Z) : list Z := flat_map hex_digits vs.

(** The bytes [hex.Decode] has stored when it stops on [src], and the
    error it stops with: a view of the loop without the destination. *)
Fixpoint hex_decoded (src : list Z) : list Z * option error :=
  match src with
  | [] => ([], None)
  | [p] =>
      match hex.fromHexChar p with
      | None => ([], Some (hex_InvalidByteError p))
      | Some _ => ([], Some hex_ErrLength)
      end
  | p :: q :: rest =>
      match hex.fromHexChar p with
      | None => ([], Some (hex_InvalidByteError p))
      | Some a =>
          match hex.fromHexChar q with
          | None => ([], Some (hex_InvalidByteError q))
          | Some b =>
              let '(l, e) := hex_decoded rest in
              (byte (Z.lor (Z.shiftl a 4) b) :: l, e)
          end
      end
  end.

(** The destination after a decode that started at its first byte: the
    decoded bytes, then what the destination held beyond them. *)
Definition decode_prefix (src : list Z) (id : UULID) : result UULID :=
  let '(ds, e) := hex_decoded src in (ds ++ skipn (length ds) id, e).

(** The 32 digit positions of the 36-character form; positions 8, 13, 18
    and 23 are not read. *)
Definition digits36 (data : list Z) : list Z :=
  slice data 0 8 ++ slice data 9 13 ++ slice data 14 18
    ++ slice data 19 23 ++ slice data 24 36.

(** [c] is a hexadecimal digit for [fromHexChar]. *)
Definition is_hex (c : Z) : bool :=
  match hex.fromHexChar c with Some _ => true | None => false end.

(** The calls that decode into an existing identifier. *)
Inductive decode_call : Type :=
| call_UnmarshalBinary
| call_UnmarshalText
| call_UnmarshalJSON
| call_Scan_bytes
| call_Scan_string.

Definition run_decode_call (c : decode_call) (id : UULID) (data : list Z)
  : result UULID :=
  match c with
  | call_UnmarshalBinary => UULID_UnmarshalBinary id data
  | call_UnmarshalText => UULID_UnmarshalText id data
  | call_UnmarshalJSON => UULID_UnmarshalJSON id data
  | call_Scan_bytes => UULID_Scan id (src_bytes data)
  | call_Scan_string => UULID_Scan id (src_string data)
  end.

(** The check run over all byte values in [fromHexChar_digits]. *)
Definition digits_checked (v : Z) : bool :=
  match hex.fromHexChar (nth (Z.to_nat (Z.shiftr v 4)) hex.hextable 0),
        hex.fromHexChar (nth (Z.to_nat (Z.land v 15)) hex.hextable 0) with
  | Some a, Some b =>
      (a =? Z.shiftr v 4) && (b =? Z.land v 15)
      && (byte (Z.lor (Z.shiftl a 4) b) =? v)
  | _, _ => false
  end.

(** ['X'] in the second group of the text form: the four bytes of the
    first group and the first byte of the second are already stored. *)
Definition encoded_bad_digit : list Z :=
  [48;49;55;56;97;50;56;52;45;57;101;88;102;45;98;51;101;55;45;
   48;51;54;100;45;53;98;49;98;57;102;51;99;100;55;53;51].

(** ** bytes *)

Module bytes.

(** [func Compare(a, b []byte) int]: lexicographic order of the unsigned
    bytes, a proper prefix being smaller. *)
Fixpoint Compare (a b : list Z) : Z :=
  match a, b with
  | [], [] => 0
  | [], _ :: _ => -1
  | _ :: _, [] => 1
  | x :: a', y :: b' =>
      if x <? y then -1 else if y <? x then 1 else Compare a' b'
  end.

End bytes.

(** [func (id UULID) Compare(other UULID) (i int)] *)
Definition UULID_Compare (id other : UULID) : Z := bytes.Compare id other.

(** The sort key of an identifier: the timestamp, then the entropy. *)
Definition sort_key (id : UULID) : Z :=
  UULID_Timestamp id * 2 ^ 80 + entropy80 id.

(** Successive calls of [New] on one generator, one for each reading of
    the clock, as in the loops of the package's tests and benchmarks. *)
Fixpoint New_seq (r : Generator) (clocks : list time.Time)
  : Generator * list (result UULID) :=
  match clocks with
  | [] => (r, [])
  | now :: rest =>
      let '(r1, res) := Generator_New r now in
      let '(r2, out) := New_seq r1 rest in
      (r2, res :: out)
  end.

(** [a] is an identifier that compares below the identifier [b]. *)
Definition sorts_before (a b : UULID) : Prop :=
  wf_UULID a /\ wf_UULID b /\ UULID_Compare a b = -1.

(** ASCII lower case of the letters [A] to [F]; other bytes are kept. *)
Definition lower (c : Z) : Z :=
  if (65 <=? c) && (c <=? 70) then c + 32 else c.

(** [c] is one of [0123456789abcdef]. *)
Definition is_lower_hex (c : Z) : bool :=
  ((48 <=? c) && (c <=? 57)) || ((97 <=? c) && (c <=? 102)).

(** The four separators of a 36-character text are ['-']. *)
Definition dashed (text : list Z) : Prop :=
  nth 8 text 0 = 45 /\ nth 13 text 0 = 45 /\
  nth 18 text 0 = 45 /\ nth 23 text 0 = 45.

(** The checks run over all values in [hex_digits_lower] and
    [hex_digits_pair]. *)
Definition lower_hex_checked (v : Z) : bool :=
  forallb is_lower_hex (hex_digits v).

Definition nibbles_checked (a : Z) : bool :=
  forallb (fun b =>
             match hex_digits (byte (Z.lor (Z.shiftl a 4) b)) with
             | [x; y] =>
                 (x =? nth (Z.to_nat a) hex.hextable 0)
                 && (y =? nth (Z.to_nat b) hex.hextable 0)
             | _ => false
             end)
    (map Z.of_nat (seq 0 16)).

Definition hextable_checked (a : Z) : bool :=
  nth (Z.to_nat a) hex.hextable 0 =? (if a <? 10 then a + 48 else a + 87).

(** The identifier that [encoded] denotes. *)
Definition encoded_id : UULID :=
  [1; 120; 162; 132; 158; 175; 179; 231; 3; 109; 91; 27; 159; 60; 215; 83].

(** [encoded] in upper case and with ['/'] for the separators. *)
Definition encoded_upper : list Z :=
  [48;49;55;56;65;50;56;52;47;57;69;65;70;47;66;51;69;55;47;
   48;51;54;68;47;53;66;49;66;57;70;51;67;68;55;53;51].

(** The hexadecimal digits that [parse] reads from a text input: those of
    the 36-character form without its separator positions, the whole
    input otherwise. *)
Definition text_digits (data : list Z) : list Z :=
  if Nat.eqb (length data) 36 then digits36 data else data.

(** ['X'] as the second character of the text form: no pair of digits
    is complete before it. *)
Definition encoded_bad_second : list Z :=
  [48;88;55;56;97;50;56;52;45;57;101;97;102;45;98;51;101;55;45;
   48;51;54;100;45;53;98;49;98;57;102;51;99;100;55;53;51].

(** * Properties *)

(** ** Arithmetic of the machine integers *)

Lemma pow2_8 : 2 ^ 8 = 256. Proof. reflexivity. Qed.
Lemma pow2_16 : 2 ^ 16 = 65536. Proof. reflexivity. Qed.
Lemma pow2_32 : 2 ^ 32 = 4294967296. Proof. reflexivity. Qed.
Lemma pow2_63 : 2 ^ 63 = 9223372036854775808. Proof. reflexivity. Qed.
Lemma pow2_64 : 2 ^ 64 = 18446744073709551616. Proof. reflexivity. Qed.
Lemma pow2_80 : 2 ^ 80 = 1208925819614629174706176. Proof. reflexivity. Qed.

Ltac pows :=
  rewrite ?pow2_8, ?pow2_16, ?pow2_32, ?pow2_63, ?pow2_64, ?pow2_80 in *.

Ltac unints :=
  unfold is_uint64, is_uint16, is_byte, uint64, uint16, byte, int64,
    MaxTimestamp in *; pows.

Lemma uint64_range z : is_uint64 (uint64 z).
Proof. unints. apply Z.mod_pos_bound. lia. Qed.

Lemma uint16_range z : is_uint16 (uint16 z).
Proof. unints. apply Z.mod_pos_bound. lia. Qed.

Lemma byte_range z : is_byte (byte z).
Proof. unints. apply Z.mod_pos_bound. lia. Qed.

Lemma uint64_id z : is_uint64 z -> uint64 z = z.
Proof. unints. intros. apply Z.mod_small. lia. Qed.

Lemma shiftr_div256 (n : nat) v :
  Z.shiftr v (8 * Z.of_nat n) = div256 n v.
Proof.
  induction n as [|n IH].
  - reflexivity.
  - replace (8 * Z.of_nat (S n)) with (8 * Z.of_nat n + 8) by lia.
    rewrite <- Z.shiftr_shiftr by lia. rewrite IH.
    rewrite (Z.shiftr_div_pow2 _ 8) by lia. reflexivity.
Qed.

Ltac shifts_to_div :=
  repeat match goal with
    | |- context [Z.shiftr ?v 56] => change (Z.shiftr v 56) with (Z.shiftr v (8 * Z.of_nat 7))
    | |- context [Z.shiftr ?v 48] => change (Z.shiftr v 48) with (Z.shiftr v (8 * Z.of_nat 6))
    | |- context [Z.shiftr ?v 40] => change (Z.shiftr v 40) with (Z.shiftr v (8 * Z.of_nat 5))
    | |- context [Z.shiftr ?v 32] => change (Z.shiftr v 32) with (Z.shiftr v (8 * Z.of_nat 4))
    | |- context [Z.shiftr ?v 24] => change (Z.shiftr v 24) with (Z.shiftr v (8 * Z.of_nat 3))
    | |- context [Z.shiftr ?v 16] => change (Z.shiftr v 16) with (Z.shiftr v (8 * Z.of_nat 2))
    | |- context [Z.shiftr ?v 8] => change (Z.shiftr v 8) with (Z.shiftr v (8 * Z.of_nat 1))
    end;
  rewrite !shiftr_div256; cbv beta iota delta [div256 Nat.iter nat_rect].

(** The bytes stored by [PutUint16] are the big-endian digits of [v]. *)
Lemma be_value_uint16 v :
  is_uint16 v -> be_value [byte (Z.shiftr v 8); byte v] = v.
Proof.
  intros Hv. unfold be_value; cbn [fold_left].
  shifts_to_div. unints. Z.div_mod_to_equations. lia.
Qed.

Lemma be_value_app l1 l2 :
  be_value (l1 ++ l2) = be_value l1 * 256 ^ Z.of_nat (length l2) + be_value l2.
Proof.
  unfold be_value.
  assert (G : forall l a b,
             fold_left (fun acc x => acc * 256 + x) l (a * 256 ^ 0 + b)
             = a * 256 ^ Z.of_nat (length l)
               + fold_left (fun acc x => acc * 256 + x) l b).
  { induction l as [|x l IH]; intros a b.
    - cbn. lia.
    - cbn [fold_left length].
      replace ((a * 256 ^ 0 + b) * 256 + x)
        with ((a * 256) * 256 ^ 0 + (b * 256 + x)) by lia.
      rewrite IH. rewrite Nat2Z.inj_succ, Z.pow_succ_r by lia. lia. }
  rewrite fold_left_app.
  specialize (G l2 (fold_left (fun acc x => acc * 256 + x) l1 0) 0).
  rewrite Z.pow_0_r in G.
  replace (fold_left (fun acc x => acc * 256 + x) l1 0 * 1 + 0)
    with (fold_left (fun acc x => acc * 256 + x) l1 0) in G by lia.
  exact G.
Qed.

(** The bytes stored by [PutUint64] are the big-endian digits of [v]. *)
Lemma be_value_uint64 v :
  is_uint64 v ->
  be_value [byte (Z.shiftr v 56); byte (Z.shiftr v 48); byte (Z.shiftr v 40);
            byte (Z.shiftr v 32); byte (Z.shiftr v 24); byte (Z.shiftr v 16);
            byte (Z.shiftr v 8); byte v] = v.
Proof.
  intros Hv. unfold be_value; cbn [fold_left].
  shifts_to_div. unints.
  assert (v / 256 / 256 / 256 / 256 / 256 / 256 / 256 / 256 = 0).
  { rewrite !Z.div_div by lia. apply Z.div_small. lia. }
  Z.div_mod_to_equations. lia.
Qed.

(** The six timestamp bytes stored by [SetTimestamp]. *)
Lemma be_value_uint48 v :
  0 <= v <= MaxTimestamp ->
  be_value [byte (Z.shiftr v 40); byte (Z.shiftr v 32); byte (Z.shiftr v 24);
            byte (Z.shiftr v 16); byte (Z.shiftr v 8); byte v] = v.
Proof.
  intros Hv. unfold be_value; cbn [fold_left].
  shifts_to_div. unints.
  assert (v / 256 / 256 / 256 / 256 / 256 / 256 = 0).
  { rewrite !Z.div_div by lia. apply Z.div_small. lia. }
  Z.div_mod_to_equations. lia.
Qed.

(** ** math/bits: [Mul64] is the full 128-bit product *)

Lemma Mul64_spec x y :
  is_uint64 x -> is_uint64 y ->
  bits.Mul64 x y = ((x * y) / 2 ^ 64, (x * y) mod 2 ^ 64).
Proof.
  intros Hx Hy. unfold bits.Mul64.
  change (Z.shiftl 1 32 - 1) with (Z.ones 32).
  rewrite !Z.land_ones by lia. rewrite !Z.shiftr_div_pow2 by lia.
  unints.
  assert (Hx0 : 0 <= x mod 4294967296 < 4294967296)
    by (apply Z.mod_pos_bound; lia).
  assert (Hy0 : 0 <= y mod 4294967296 < 4294967296)
    by (apply Z.mod_pos_bound; lia).
  assert (Hx1 : 0 <= x / 4294967296 < 4294967296)
    by (split; [apply Z.div_pos; lia | apply Z.div_lt_upper_bound; lia]).
  assert (Hy1 : 0 <= y / 4294967296 < 4294967296)
    by (split; [apply Z.div_pos; lia | apply Z.div_lt_upper_bound; lia]).
  assert (Ex : x = x / 4294967296 * 4294967296 + x mod 4294967296)
    by (rewrite Z.mul_comm; apply Z.div_mod; lia).
  assert (Ey : y = y / 4294967296 * 4294967296 + y mod 4294967296)
    by (rewrite Z.mul_comm; apply Z.div_mod; lia).
  set (x0 := x mod 4294967296) in *. set (x1 := x / 4294967296) in *.
  set (y0 := y mod 4294967296) in *. set (y1 := y / 4294967296) in *.
  assert (Exy : x * y
                = x1 * y1 * 18446744073709551616
                  + (x1 * y0 + x0 * y1) * 4294967296 + x0 * y0)
    by (rewrite Ex, Ey; ring).
  assert (Ha : 0 <= x0 * y0 <= 4294967295 * 4294967295) by nia.
  assert (Hb : 0 <= x1 * y0 <= 4294967295 * 4294967295) by nia.
  assert (Hc : 0 <= x0 * y1 <= 4294967295 * 4294967295) by nia.
  assert (Hd : 0 <= x1 * y1 <= 4294967295 * 4294967295) by nia.
  rewrite Exy.
  generalize dependent (x0 * y0). generalize dependent (x1 * y0).
  generalize dependent (x0 * y1). generalize dependent (x1 * y1).
  intros d Hd c Hc b Hb a Exy Ha.
  clear Exy Ex Ey.
  rewrite (Z.mod_small a), (Z.mod_small b), (Z.mod_small c), (Z.mod_small d)
    by lia.
  assert (Ht : 0 <= a / 4294967296 < 4294967296)
    by (split; [apply Z.div_pos; lia | apply Z.div_lt_upper_bound; lia]).
  rewrite (Z.mod_small (b + a / 4294967296)) by lia.
  set (t := b + a / 4294967296) in *.
  assert (Hw1 : 0 <= t mod 4294967296 < 4294967296)
    by (apply Z.mod_pos_bound; lia).
  assert (Hw2 : 0 <= t / 4294967296 < 4294967296)
    by (split; [apply Z.div_pos; lia | apply Z.div_lt_upper_bound; lia]).
  rewrite (Z.mod_small (t mod 4294967296 + c)) by lia.
  set (w1 := t mod 4294967296 + c) in *.
  assert (Hw3 : 0 <= w1 / 4294967296 < 4294967296)
    by (split; [apply Z.div_pos; lia | apply Z.div_lt_upper_bound; lia]).
  rewrite (Z.mod_small (d + t / 4294967296)) by lia.
  rewrite (Z.mod_small (d + t / 4294967296 + w1 / 4294967296)) by lia.
  assert (Et : t = 4294967296 * (t / 4294967296) + t mod 4294967296)
    by (apply Z.div_mod; lia).
  assert (Ew : w1 = 4294967296 * (w1 / 4294967296) + w1 mod 4294967296)
    by (apply Z.div_mod; lia).
  assert (Ea : a = 4294967296 * (a / 4294967296) + a mod 4294967296)
    by (apply Z.div_mod; lia).
  assert (Hwm : 0 <= w1 mod 4294967296 < 4294967296)
    by (apply Z.mod_pos_bound; lia).
  assert (Ham : 0 <= a mod 4294967296 < 4294967296)
    by (apply Z.mod_pos_bound; lia).
  assert (E : d * 18446744073709551616 + (b + c) * 4294967296 + a
              = (d + t / 4294967296 + w1 / 4294967296) * 18446744073709551616
                + (w1 mod 4294967296 * 4294967296 + a mod 4294967296)).
  { subst w1 t. lia. }
  rewrite E. f_equal.
  rewrite Z.div_add_l by lia.
  rewrite (Z.div_small (w1 mod 4294967296 * 4294967296 + a mod 4294967296))
    by lia.
  lia.
Qed.

Tactic Notation "explode" ident(l) hyp(H) integer(n) :=
  do n (destruct l as [|? l]; [discriminate H|]);
  destruct l; [clear H|discriminate H].

(** ** The timestamp field *)

Lemma lor_shiftl_add a b k :
  0 <= k -> 0 <= a < 2 ^ k -> 0 <= b ->
  Z.lor a (Z.shiftl b k) = a + b * 2 ^ k.
Proof.
  intros Hk Ha Hb.
  pose proof (Z.add_lor_land a (Z.shiftl b k)) as Hadd.
  assert (E : Z.land a (Z.shiftl b k) = 0).
  { apply Z.bits_inj'. intros n Hn.
    rewrite Z.land_spec, Z.bits_0.
    destruct (Z.lt_ge_cases n k) as [Hlt|Hge].
    - rewrite Z.shiftl_spec_low by exact Hlt. apply andb_false_r.
    - destruct (Z.eq_dec a 0) as [->|Hne].
      + rewrite Z.bits_0. reflexivity.
      + rewrite (Z.bits_above_log2 a n); [reflexivity | lia |].
        apply Z.lt_le_trans with k; [|exact Hge].
        apply Z.log2_lt_pow2; lia. }
  rewrite E, Z.shiftl_mul_pow2 in Hadd by lia.
  rewrite Z.shiftl_mul_pow2 by lia. lia.
Qed.

(** [Timestamp] reads bytes 0 to 5 as a big-endian number. *)
Lemma UULID_Timestamp_be id :
  wf_UULID id -> UULID_Timestamp id = be_value (firstn 6 id).
Proof.
  intros [Hlen Hb]. explode id Hlen 16.
  repeat match goal with
         | H : is_bytes (_ :: _) |- _ => inversion H; subst; clear H
         | H : Forall _ (_ :: _) |- _ => inversion H; subst; clear H
         end.
  unfold UULID_Timestamp, be_value. cbn [nth firstn fold_left].
  unints.
  rewrite (lor_shiftl_add _ _ 8) by (pows; lia). pows.
  rewrite (lor_shiftl_add _ _ 16) by (pows; lia). pows.
  rewrite (lor_shiftl_add _ _ 24) by (change (2 ^ 24) with 16777216; lia).
  change (2 ^ 24) with 16777216.
  rewrite (lor_shiftl_add _ _ 32) by (pows; lia). pows.
  rewrite (lor_shiftl_add _ _ 40) by (change (2 ^ 40) with 1099511627776; lia).
  change (2 ^ 40) with 1099511627776.
  lia.
Qed.

Lemma be_value_bound l :
  is_bytes l -> 0 <= be_value l < 256 ^ Z.of_nat (length l).
Proof.
  induction l as [|x l IH] using rev_ind; intros Hb.
  - cbn. lia.
  - apply Forall_app in Hb. destruct Hb as [Hl Hx].
    inversion Hx as [|? ? Hx' _]; subst.
    rewrite be_value_app. specialize (IH Hl).
    rewrite length_app. cbn [length].
    replace (Z.of_nat (length l + 1)) with (Z.succ (Z.of_nat (length l))) by lia.
    rewrite Z.pow_succ_r by lia.
    change (be_value [x]) with (0 * 256 + x). unfold is_byte in Hx'.
    change (256 ^ Z.of_nat 1) with 256. lia.
Qed.

(** The 48-bit field cannot hold more than [MaxTimestamp]: the range
    check that ends [parse] never fires on an array of bytes. *)
Lemma UULID_Timestamp_le_Max id :
  wf_UULID id -> 0 <= UULID_Timestamp id <= MaxTimestamp.
Proof.
  intros Hwf. rewrite UULID_Timestamp_be by exact Hwf.
  destruct Hwf as [Hlen Hb].
  assert (Hb6 : is_bytes (firstn 6 id)).
  { unfold is_bytes in Hb. rewrite <- (firstn_skipn 6 id) in Hb.
    apply Forall_app in Hb. apply Hb. }
  pose proof (be_value_bound _ Hb6) as H.
  rewrite length_firstn, Hlen in H. change (Z.of_nat (Nat.min 6 BinarySize)) with 6 in H.
  change (256 ^ 6) with 281474976710656 in H. unfold MaxTimestamp. lia.
Qed.

Lemma check_timestamp_ok id :
  wf_UULID id -> check_timestamp id = (id, None).
Proof.
  intros Hwf. unfold check_timestamp.
  pose proof (UULID_Timestamp_le_Max id Hwf) as H.
  destruct (UULID_Timestamp id >? MaxTimestamp) eqn:E.
  - apply Z.gtb_lt in E. lia.
  - reflexivity.
Qed.

(** ** Generator: the entropy step *)

Lemma put_entropy_10 r p :
  length p = 10%nat -> put_entropy r p = (entropy_bytes (hi r) (lo r), None).
Proof.
  intros Hp. do 11 (destruct p as [|? p]; try discriminate Hp). reflexivity.
Qed.

Lemma be_value_entropy_bytes h l :
  is_uint16 h -> is_uint64 l -> be_value (entropy_bytes h l) = h * 2 ^ 64 + l.
Proof.
  intros Hh Hl.
  change (entropy_bytes h l)
    with ([byte (Z.shiftr h 8); byte h]
            ++ [byte (Z.shiftr l 56); byte (Z.shiftr l 48);
                byte (Z.shiftr l 40); byte (Z.shiftr l 32);
                byte (Z.shiftr l 24); byte (Z.shiftr l 16);
                byte (Z.shiftr l 8); byte l]).
  rewrite be_value_app, be_value_uint16, be_value_uint64 by assumption.
  reflexivity.
Qed.

Lemma log2_lt_of_bound n a : 0 < n -> 0 <= a < 2 ^ n -> Z.log2 a < n.
Proof.
  intros Hn Ha. destruct (Z.eq_dec a 0) as [->|Hne].
  - cbn. lia.
  - apply Z.log2_lt_pow2; lia.
Qed.

Lemma lxor_bound n a b :
  0 <= n -> 0 <= a < 2 ^ n -> 0 <= b < 2 ^ n -> 0 <= Z.lxor a b < 2 ^ n.
Proof.
  intros Hn Ha Hb.
  assert (H0 : 0 <= Z.lxor a b) by (apply Z.lxor_nonneg; lia).
  split; [exact H0|].
  destruct (Z.eq_dec (Z.lxor a b) 0) as [->|Hne]; [lia|].
  assert (0 < n).
  { destruct (Z.eq_dec n 0) as [->|]; [|lia].
    assert (a = 0) by (cbn in Ha; lia). assert (b = 0) by (cbn in Hb; lia).
    subst. cbn in Hne. congruence. }
  apply Z.log2_lt_pow2; [lia|].
  pose proof (Z.log2_lxor a b ltac:(lia) ltac:(lia)).
  pose proof (log2_lt_of_bound n a ltac:(lia) Ha).
  pose proof (log2_lt_of_bound n b ltac:(lia) Hb).
  lia.
Qed.

Lemma lor_bound n a b :
  0 <= n -> 0 <= a < 2 ^ n -> 0 <= b < 2 ^ n -> 0 <= Z.lor a b < 2 ^ n.
Proof.
  intros Hn Ha Hb.
  assert (H0 : 0 <= Z.lor a b) by (apply Z.lor_nonneg; lia).
  split; [exact H0|].
  destruct (Z.eq_dec (Z.lor a b) 0) as [->|Hne]; [lia|].
  assert (0 < n).
  { destruct (Z.eq_dec n 0) as [->|]; [|lia].
    assert (a = 0) by (cbn in Ha; lia). assert (b = 0) by (cbn in Hb; lia).
    subst. cbn in Hne. congruence. }
  apply Z.log2_lt_pow2; [lia|].
  rewrite Z.log2_lor by lia.
  pose proof (log2_lt_of_bound n a ltac:(lia) Ha).
  pose proof (log2_lt_of_bound n b ltac:(lia) Hb).
  lia.
Qed.

Lemma lxor_uint64 a b : is_uint64 a -> is_uint64 b -> is_uint64 (Z.lxor a b).
Proof. unfold is_uint64. apply lxor_bound. lia. Qed.

Lemma spec_step_seed_range s : is_uint64 (spec_step_seed s).
Proof. apply uint64_range. Qed.

Lemma spec_step_output_range s : is_uint64 (spec_step_output s).
Proof.
  unfold spec_step_output.
  pose proof (spec_step_seed_range s) as Hs. set (s' := spec_step_seed s) in *.
  assert (Hx : is_uint64 (Z.lxor s' 0xe7037ed1a0b428db)).
  { apply lxor_uint64; [exact Hs | unints; lia]. }
  apply lxor_uint64.
  - unints. split.
    + apply Z.div_pos; nia.
    + apply Z.div_lt_upper_bound; nia.
  - apply uint64_range.
Qed.

Lemma uint64r_eq r :
  is_uint64 (seed r) ->
  Generator_uint64r r
  = (set_seed r (spec_step_seed (seed r)), spec_step_output (seed r)).
Proof.
  intros Hs. unfold Generator_uint64r. cbn [seed set_seed].
  fold (spec_step_seed (seed r)).
  pose proof (spec_step_seed_range (seed r)) as Hs'.
  rewrite Mul64_spec.
  - reflexivity.
  - apply lxor_uint64; [exact Hs' | unints; lia].
  - exact Hs'.
Qed.

Lemma advance_eq r now_ms :
  is_uint64 (seed r) ->
  Generator_advance r now_ms
  = mkGenerator (spec_step_seed (spec_step_seed (seed r))) now_ms
      (uint16 (spec_step_output (seed r)))
      (spec_step_output (spec_step_seed (seed r))).
Proof.
  intros Hs. unfold Generator_advance.
  rewrite uint64r_eq by exact Hs. cbn [set_ms set_seed set_hi seed ms hi lo].
  rewrite uint64r_eq by (cbn; apply spec_step_seed_range).
  reflexivity.
Qed.

Lemma wf_NewGeneratorWithSeed s :
  is_uint64 s -> wf_Generator (NewGeneratorWithSeed s).
Proof. intros Hs. unfold wf_Generator; cbn. unints. lia. Qed.

Lemma advance_wf r now_ms :
  is_uint64 (seed r) -> 0 <= now_ms <= MaxTimestamp ->
  wf_Generator (Generator_advance r now_ms).
Proof.
  intros Hs Hm. rewrite advance_eq by exact Hs.
  unfold wf_Generator; cbn [seed ms hi lo].
  repeat split; try apply spec_step_seed_range; try apply uint16_range;
    try apply spec_step_output_range; lia.
Qed.

(** [read] on the ten entropy bytes of an identifier, by cases on the
    generator's state. *)
Lemma read_same_ms r p :
  wf_Generator r -> length p = 10%nat ->
  Generator_read r p (ms r)
  = if lo r <? 2 ^ 64 - 1 then
      (set_lo r (lo r + 1), (entropy_bytes (hi r) (lo r + 1), None))
    else if hi r <? 2 ^ 16 - 1 then
      (set_hi (set_lo r 0) (hi r + 1), (entropy_bytes (hi r + 1) 0, None))
    else
      (set_hi (set_lo r 0) 0, (p, Some ErrMonotonicOverflow)).
Proof.
  intros (Hs & Hm & Hh & Hl) Hp. unfold Generator_read.
  rewrite Z.eqb_refl. cbn [lo hi set_lo set_hi].
  destruct (lo r <? 2 ^ 64 - 1) eqn:Elo.
  - apply Z.ltb_lt in Elo.
    rewrite uint64_id by (unints; lia).
    destruct (lo r + 1 <? lo r) eqn:E; [apply Z.ltb_lt in E; lia|].
    rewrite put_entropy_10 by exact Hp. reflexivity.
  - apply Z.ltb_ge in Elo.
    assert (El : lo r = 2 ^ 64 - 1) by (unints; lia).
    rewrite El. change (uint64 (2 ^ 64 - 1 + 1)) with 0.
    change (0 <? 2 ^ 64 - 1) with true. cbv iota.
    destruct (hi r <? 2 ^ 16 - 1) eqn:Ehi.
    + apply Z.ltb_lt in Ehi.
      assert (Eu : uint16 (hi r + 1) = hi r + 1)
        by (unints; apply Z.mod_small; lia).
      rewrite Eu.
      destruct (hi r + 1 <? hi r) eqn:E; [apply Z.ltb_lt in E; lia|].
      rewrite put_entropy_10 by exact Hp. reflexivity.
    + apply Z.ltb_ge in Ehi.
      assert (Eh : hi r = 2 ^ 16 - 1) by (unints; lia).
      rewrite Eh. change (uint16 (2 ^ 16 - 1 + 1)) with 0.
      change (0 <? 2 ^ 16 - 1) with true. reflexivity.
Qed.

Lemma read_other_ms r p now_ms :
  is_uint64 (seed r) -> length p = 10%nat -> ms r <> now_ms ->
  Generator_read r p now_ms
  = (Generator_advance r now_ms,
     (entropy_bytes (uint16 (spec_step_output (seed r)))
        (spec_step_output (spec_step_seed (seed r))), None)).
Proof.
  intros Hs Hp Hne. unfold Generator_read.
  destruct (ms r =? now_ms) eqn:E; [apply Z.eqb_eq in E; contradiction|].
  rewrite put_entropy_10 by exact Hp.
  rewrite advance_eq by exact Hs. reflexivity.
Qed.

(** [New] once the clock reading passed the range check of
    [SetTimestamp]: the identifier is the six timestamp bytes followed by
    the ten bytes left by [read]. *)
Lemma New_in_range r now :
  Timestamp now <= MaxTimestamp ->
  Generator_New r now
  = let '(r', (p, err)) :=
      Generator_read r (repeat 0 10%nat) (Timestamp now) in
    (r', (splice (timestamp_bytes (Timestamp now) ++ repeat 0 10%nat) 6 p, err)).
Proof.
  intros Hmax. unfold Generator_New, UULID_SetTimestamp.
  destruct (Timestamp now >? MaxTimestamp) eqn:E.
  - apply Z.gtb_lt in E. lia.
  - reflexivity.
Qed.

Lemma New_too_large r now :
  MaxTimestamp < Timestamp now ->
  Generator_New r now = (r, (UULID_zero, Some ErrBigTime)).
Proof.
  intros Hmax. unfold Generator_New, UULID_SetTimestamp.
  destruct (Timestamp now >? MaxTimestamp) eqn:E.
  - reflexivity.
  - rewrite Z.gtb_ltb in E. apply Z.ltb_ge in E. lia.
Qed.

Lemma Timestamp_range now : is_uint64 (Timestamp now).
Proof. apply uint64_range. Qed.

(** [New] by cases on the clock reading and the generator's state. *)
Lemma New_cases r now :
  wf_Generator r ->
  Generator_New r now
  = let t := Timestamp now in
    if t >? MaxTimestamp then (r, (UULID_zero, Some ErrBigTime))
    else if ms r =? t then
      if lo r <? 2 ^ 64 - 1 then
        (set_lo r (lo r + 1),
         (timestamp_bytes t ++ entropy_bytes (hi r) (lo r + 1), None))
      else if hi r <? 2 ^ 16 - 1 then
        (set_hi (set_lo r 0) (hi r + 1),
         (timestamp_bytes t ++ entropy_bytes (hi r + 1) 0, None))
      else
        (set_hi (set_lo r 0) 0,
         (timestamp_bytes t ++ repeat 0 10%nat, Some ErrMonotonicOverflow))
    else
      (Generator_advance r t,
       (timestamp_bytes t
          ++ entropy_bytes (uint16 (spec_step_output (seed r)))
               (spec_step_output (spec_step_seed (seed r))), None)).
Proof.
  intros Hwf. cbv zeta.
  destruct (Timestamp now >? MaxTimestamp) eqn:Emax.
  - apply New_too_large. apply Z.gtb_lt in Emax. lia.
  - rewrite New_in_range by (rewrite Z.gtb_ltb in Emax; apply Z.ltb_ge in Emax; lia).
    destruct (ms r =? Timestamp now) eqn:Ems.
    + apply Z.eqb_eq in Ems. rewrite <- Ems.
      rewrite read_same_ms by (try exact Hwf; reflexivity).
      destruct (lo r <? 2 ^ 64 - 1); [reflexivity|].
      destruct (hi r <? 2 ^ 16 - 1); reflexivity.
    + apply Z.eqb_neq in Ems.
      rewrite read_other_ms by (try apply Hwf; try exact Ems; reflexivity).
      reflexivity.
Qed.

Lemma counter80_lt r :
  wf_Generator r ->
  0 <= counter80 r <= 2 ^ 80 - 1 /\
  (counter80 r = 2 ^ 80 - 1 <-> lo r = 2 ^ 64 - 1 /\ hi r = 2 ^ 16 - 1).
Proof.
  intros (_ & _ & Hh & Hl). unfold counter80. unints. lia.
Qed.

Lemma entropy80_cons6 a b c d e f h l :
  is_uint16 h -> is_uint64 l ->
  entropy80 (a :: b :: c :: d :: e :: f :: entropy_bytes h l) = h * 2 ^ 64 + l.
Proof.
  intros Hh Hl. unfold entropy80. cbn [skipn].
  apply be_value_entropy_bytes; assumption.
Qed.

Ltac ent_side := first [assumption | unints; lia].

Ltac entropy_values :=
  unfold timestamp_bytes; cbn [app]; rewrite !entropy80_cons6 by ent_side.

(** What a successful [New] leaves behind. *)
Lemma New_success r now r1 id1 :
  wf_Generator r ->
  Generator_New r now = (r1, (id1, None)) ->
  wf_Generator r1 /\ ms r1 = Timestamp now /\
  id1 = timestamp_bytes (Timestamp now) ++ entropy_bytes (hi r1) (lo r1) /\
  ((ms r = Timestamp now /\ counter80 r1 = counter80 r + 1) \/
   (ms r <> Timestamp now /\ r1 = Generator_advance r (Timestamp now))).
Proof.
  intros Hwf HN. pose proof Hwf as (Hs & Hm & Hh & Hl).
  rewrite New_cases in HN by exact Hwf. cbv zeta in HN.
  pose proof (Timestamp_range now) as Ht.
  destruct (Timestamp now >? MaxTimestamp) eqn:Emax; [discriminate HN|].
  rewrite Z.gtb_ltb in Emax. apply Z.ltb_ge in Emax.
  destruct (ms r =? Timestamp now) eqn:Ems.
  - apply Z.eqb_eq in Ems.
    destruct (lo r <? 2 ^ 64 - 1) eqn:Elo.
    + apply Z.ltb_lt in Elo. injection HN as <- <-.
      cbn [ms hi lo seed set_lo]. unfold wf_Generator, counter80.
      cbn [ms hi lo seed set_lo]. unints.
      repeat split; lia.
    + apply Z.ltb_ge in Elo.
      destruct (hi r <? 2 ^ 16 - 1) eqn:Ehi; [|discriminate HN].
      apply Z.ltb_lt in Ehi. injection HN as <- <-.
      cbn [ms hi lo seed set_lo set_hi]. unfold wf_Generator, counter80.
      cbn [ms hi lo seed set_lo set_hi]. unints.
      repeat split; lia.
  - apply Z.eqb_neq in Ems. injection HN as <- <-.
    split; [apply advance_wf; [exact Hs | unfold is_uint64 in Ht; lia]|].
    rewrite advance_eq by exact Hs. cbn [ms hi lo].
    repeat split. right. split; [exact Ems | reflexivity].
Qed.

(** The well-formed states are the reachable ones: [NewGeneratorWithSeed]
    gives one and every call of [New], failed or not, keeps them. *)
Lemma New_wf r now :
  wf_Generator r -> wf_Generator (fst (Generator_New r now)).
Proof.
  intros Hwf. pose proof Hwf as (Hs & Hm & Hh & Hl).
  pose proof (Timestamp_range now) as Ht.
  rewrite New_cases by exact Hwf. cbv zeta.
  destruct (Timestamp now >? MaxTimestamp) eqn:Emax; [exact Hwf|].
  rewrite Z.gtb_ltb in Emax. apply Z.ltb_ge in Emax.
  destruct (ms r =? Timestamp now).
  - destruct (lo r <? 2 ^ 64 - 1) eqn:Elo.
    + apply Z.ltb_lt in Elo. unfold wf_Generator.
      cbn [fst seed ms hi lo set_lo]. unints. lia.
    + destruct (hi r <? 2 ^ 16 - 1) eqn:Ehi.
      * apply Z.ltb_lt in Ehi. unfold wf_Generator.
        cbn [fst seed ms hi lo set_lo set_hi]. unints. lia.
      * unfold wf_Generator.
        cbn [fst seed ms hi lo set_lo set_hi]. unints. lia.
  - cbn [fst]. apply advance_wf; [exact Hs | unfold is_uint64 in Ht; lia].
Qed.

(** C1. Two identifiers generated in direct succession by one generator
    in the same millisecond carry the same six timestamp bytes, and the
    80-bit entropy value of the second is the first's plus one.  A
    generator whose last-seen millisecond is the current one and whose
    counter is below its maximum does produce the first identifier, with
    the incremented counter as entropy; the call after a successful one
    succeeds exactly when the counter is still below the maximum. *)
Theorem New_same_ms_consecutive :
  forall (r : Generator) (now1 now2 : time.Time),
    wf_Generator r ->
    Timestamp now2 = Timestamp now1 ->
    (ms r = Timestamp now1 -> counter80 r < 2 ^ 80 - 1 ->
     exists r1 id1,
       Generator_New r now1 = (r1, (id1, None)) /\
       entropy80 id1 = counter80 r + 1) /\
    (forall r1 id1,
        Generator_New r now1 = (r1, (id1, None)) ->
        ms r1 = Timestamp now2 /\ counter80 r1 = entropy80 id1 /\
        forall r2 id2 err,
          Generator_New r1 now2 = (r2, (id2, err)) ->
          (err = None <-> counter80 r1 < 2 ^ 80 - 1) /\
          (err = None ->
           firstn 6 id2 = firstn 6 id1 /\
           entropy80 id2 = entropy80 id1 + 1)).
Proof.
  intros r now1 now2 Hwf Hsame. split.
  - intros Hms Hroom.
    pose proof (counter80_lt r Hwf) as [Hc Hmax].
    pose proof Hwf as (Hs & Hm & Hh & Hl).
    rewrite New_cases by exact Hwf. cbv zeta.
    destruct (Timestamp now1 >? MaxTimestamp) eqn:Emax;
      [apply Z.gtb_lt in Emax; lia|].
    rewrite Hms, Z.eqb_refl.
    destruct (lo r <? 2 ^ 64 - 1) eqn:Elo.
    + apply Z.ltb_lt in Elo. do 2 eexists. split; [reflexivity|].
      entropy_values. unfold counter80. lia.
    + apply Z.ltb_ge in Elo.
      destruct (hi r <? 2 ^ 16 - 1) eqn:Ehi.
      * apply Z.ltb_lt in Ehi. do 2 eexists. split; [reflexivity|].
        entropy_values. unfold counter80. unints. lia.
      * apply Z.ltb_ge in Ehi. unints. lia.
  - intros r1 id1 HN1.
    destruct (New_success r now1 r1 id1 Hwf HN1) as (Hwf1 & Hms1 & Hid1 & _).
    pose proof Hwf1 as (Hs1 & Hm1 & Hh1 & Hl1).
    assert (He1 : entropy80 id1 = counter80 r1).
    { rewrite Hid1. apply entropy80_cons6; assumption. }
    split; [congruence|]. split; [congruence|].
    intros r2 id2 err HN2.
    pose proof (counter80_lt r1 Hwf1) as [Hc1 Hmax1].
    rewrite New_cases in HN2 by exact Hwf1. cbv zeta in HN2.
    rewrite Hsame, <- Hms1 in HN2.
    destruct (ms r1 >? MaxTimestamp) eqn:Emax;
      [apply Z.gtb_lt in Emax; lia|].
    rewrite Z.eqb_refl in HN2.
    destruct (lo r1 <? 2 ^ 64 - 1) eqn:Elo.
    + apply Z.ltb_lt in Elo. injection HN2 as <- <- <-.
      split; [split; [intros _; unfold counter80; unints; lia | reflexivity]|].
      intros _. rewrite Hid1, <- Hms1. split; [reflexivity|].
      entropy_values. lia.
    + apply Z.ltb_ge in Elo.
      destruct (hi r1 <? 2 ^ 16 - 1) eqn:Ehi.
      * apply Z.ltb_lt in Ehi. injection HN2 as <- <- <-.
        split; [split; [intros _; unfold counter80; unints; lia | reflexivity]|].
        intros _. rewrite Hid1, <- Hms1. split; [reflexivity|].
        entropy_values. unints. lia.
      * apply Z.ltb_ge in Ehi. injection HN2 as <- <- <-.
        split; [|discriminate].
        split; [discriminate|]. intros Hlt.
        assert (counter80 r1 = 2 ^ 80 - 1) by (apply Hmax1; unints; lia).
        lia.
Qed.

Lemma New_same_ms_consecutive_witness :
  let r := mkGenerator 42 1617634303663 46132 16846851108956068306 in
  let now := Time 1617634303663 in
  wf_Generator r /\ Timestamp now = Timestamp now /\
  exists r1 id1,
    Generator_New r now = (r1, (id1, None)) /\
    entropy80 id1 = counter80 r + 1.
Proof.
  intros r now.
  assert (Hwf : wf_Generator r) by (unfold wf_Generator; cbn; unints; lia).
  split; [exact Hwf|]. split; [reflexivity|].
  destruct (New_same_ms_consecutive r now now Hwf eq_refl) as [H _].
  apply H; [reflexivity | unfold counter80; cbn; unints; lia].
Defined.

(** C2. When the current millisecond is the generator's last-seen one,
    [read] fails, with [ErrMonotonicOverflow], if and only if the 80-bit
    counter held [2^80 - 1] before the increment: the low half wrapped to
    zero and then the high half wrapped to zero.  For every smaller value
    the call succeeds, the counter is one greater and is what the ten
    bytes hold. *)
Theorem read_same_ms_overflow_iff :
  forall (r : Generator) (p : list Z) (now_ms : Z)
         (r' : Generator) (p' : list Z) (err : option error),
    wf_Generator r -> length p = 10%nat -> ms r = now_ms ->
    Generator_read r p now_ms = (r', (p', err)) ->
    (err <> None <-> err = Some ErrMonotonicOverflow) /\
    (err = Some ErrMonotonicOverflow <-> counter80 r = 2 ^ 80 - 1) /\
    (err = Some ErrMonotonicOverflow ->
     lo r = 2 ^ 64 - 1 /\ lo r' = 0 /\ hi r = 2 ^ 16 - 1 /\ hi r' = 0) /\
    (counter80 r < 2 ^ 80 - 1 ->
     err = None /\ counter80 r' = counter80 r + 1 /\
     be_value p' = counter80 r + 1).
Proof.
  intros r p now_ms r' p' err Hwf Hp Hms HR. subst now_ms.
  rewrite read_same_ms in HR by assumption.
  pose proof (counter80_lt r Hwf) as [Hc Hmax].
  pose proof Hwf as (Hs & Hm & Hh & Hl).
  destruct (lo r <? 2 ^ 64 - 1) eqn:Elo.
  - apply Z.ltb_lt in Elo. injection HR as <- <- <-.
    assert (Hne : counter80 r <> 2 ^ 80 - 1) by (rewrite Hmax; lia).
    repeat split; try discriminate; try congruence; try lia.
    + unfold counter80; cbn [hi lo set_lo]. lia.
    + rewrite be_value_entropy_bytes by ent_side. unfold counter80. lia.
  - apply Z.ltb_ge in Elo.
    destruct (hi r <? 2 ^ 16 - 1) eqn:Ehi.
    + apply Z.ltb_lt in Ehi. injection HR as <- <- <-.
      assert (Hne : counter80 r <> 2 ^ 80 - 1) by (rewrite Hmax; lia).
      repeat split; try discriminate; try congruence; try lia.
      * unfold counter80; cbn [hi lo set_lo set_hi]. unints. lia.
      * rewrite be_value_entropy_bytes by ent_side.
        unfold counter80. unints. lia.
    + apply Z.ltb_ge in Ehi. injection HR as <- <- <-.
      assert (Heq : counter80 r = 2 ^ 80 - 1) by (apply Hmax; unints; lia).
      cbn [hi lo set_lo set_hi].
      repeat split; try discriminate; try congruence; try (unints; lia).
Qed.

Lemma read_same_ms_overflow_iff_witness :
  let r := mkGenerator 42 5 65535 18446744073709551615 in
  let p := repeat 0 10%nat in
  wf_Generator r /\ length p = 10%nat /\
  Generator_read r p 5 = (mkGenerator 42 5 0 0, (p, Some ErrMonotonicOverflow)) /\
  counter80 r = 2 ^ 80 - 1.
Proof.
  intros r p.
  assert (Hwf : wf_Generator r) by (unfold wf_Generator; cbn; unints; lia).
  assert (HR : Generator_read r p 5
               = (mkGenerator 42 5 0 0, (p, Some ErrMonotonicOverflow)))
    by reflexivity.
  split; [exact Hwf|]. split; [reflexivity|]. split; [exact HR|].
  apply (read_same_ms_overflow_iff r p 5 _ _ _ Hwf eq_refl eq_refl HR).
  reflexivity.
Defined.

(** C9. The state is changed before the overflow is reported: a call in
    the last-seen millisecond with the counter at [2^80 - 1] returns
    [ErrMonotonicOverflow] and leaves both counter halves at zero, the
    millisecond and the seed as they were; the next call in that
    millisecond succeeds and its identifier has entropy value 1, below the
    value the counter had reached. *)
Theorem New_overflow_resets_counter :
  forall (r : Generator) (now1 now2 : time.Time),
    wf_Generator r ->
    ms r = Timestamp now1 -> Timestamp now2 = Timestamp now1 ->
    counter80 r = 2 ^ 80 - 1 ->
    exists r1 id1 r2 id2,
      Generator_New r now1 = (r1, (id1, Some ErrMonotonicOverflow)) /\
      hi r1 = 0 /\ lo r1 = 0 /\ ms r1 = ms r /\ seed r1 = seed r /\
      Generator_New r1 now2 = (r2, (id2, None)) /\
      entropy80 id2 = 1 /\ entropy80 id2 < counter80 r /\
      firstn 6 id2 = firstn 6 id1.
Proof.
  intros r now1 now2 Hwf Hms Hsame Hfull.
  pose proof (counter80_lt r Hwf) as [Hc Hmax].
  pose proof Hwf as (Hs & Hm & Hh & Hl).
  destruct (proj1 Hmax Hfull) as [El Eh].
  assert (Hwf1 : wf_Generator (set_hi (set_lo r 0) 0)).
  { unfold wf_Generator; cbn [seed ms hi lo set_hi set_lo]. unints. lia. }
  exists (set_hi (set_lo r 0) 0),
    (timestamp_bytes (Timestamp now1) ++ repeat 0 10%nat),
    (set_lo (set_hi (set_lo r 0) 0) 1),
    (timestamp_bytes (Timestamp now1) ++ entropy_bytes 0 1).
  rewrite (New_cases r) by exact Hwf.
  rewrite (New_cases _ now2) by exact Hwf1. cbv zeta.
  rewrite Hsame. cbn [seed ms hi lo set_hi set_lo].
  destruct (Timestamp now1 >? MaxTimestamp) eqn:Emax;
    [apply Z.gtb_lt in Emax; lia|].
  rewrite Hms, Z.eqb_refl.
  destruct (lo r <? 2 ^ 64 - 1) eqn:Elo; [apply Z.ltb_lt in Elo; lia|].
  destruct (hi r <? 2 ^ 16 - 1) eqn:Ehi; [apply Z.ltb_lt in Ehi; lia|].
  change (0 <? 2 ^ 64 - 1) with true. cbv iota.
  change (0 + 1) with 1.
  repeat split. rewrite Hfull. reflexivity.
Qed.

Lemma New_overflow_resets_counter_witness :
  let r := mkGenerator 42 5 65535 18446744073709551615 in
  let now := Time 5 in
  wf_Generator r /\ ms r = Timestamp now /\ counter80 r = 2 ^ 80 - 1 /\
  exists r1 id1 r2 id2,
    Generator_New r now = (r1, (id1, Some ErrMonotonicOverflow)) /\
    hi r1 = 0 /\ lo r1 = 0 /\ ms r1 = ms r /\ seed r1 = seed r /\
    Generator_New r1 now = (r2, (id2, None)) /\
    entropy80 id2 = 1 /\ entropy80 id2 < counter80 r /\
    firstn 6 id2 = firstn 6 id1.
Proof.
  intros r now.
  assert (Hwf : wf_Generator r) by (unfold wf_Generator; cbn; unints; lia).
  split; [exact Hwf|]. split; [reflexivity|]. split; [reflexivity|].
  apply (New_overflow_resets_counter r now now Hwf); reflexivity.
Defined.

(** C7. One entropy step adds [0xA0761D6478BD642F] to the seed modulo
    [2^64] and returns the exclusive or of the two 64-bit halves of the
    128-bit product of [(seed XOR 0xE7037ED1A0B428DB)] and [seed].  A
    regeneration runs exactly two steps: the new high half is the low 16
    bits of the first output, the new low half is the whole output of the
    second. *)
Theorem uint64r_advance_spec :
  forall (r : Generator) (now_ms : Z),
    is_uint64 (seed r) ->
    Generator_uint64r r
    = (set_seed r (spec_step_seed (seed r)), spec_step_output (seed r)) /\
    Generator_advance r now_ms
    = mkGenerator (spec_step_seed (spec_step_seed (seed r))) now_ms
        (spec_step_output (seed r) mod 2 ^ 16)
        (spec_step_output (spec_step_seed (seed r))).
Proof.
  intros r now_ms Hs. split.
  - apply uint64r_eq. exact Hs.
  - apply advance_eq. exact Hs.
Qed.

Lemma uint64r_advance_spec_witness :
  let r := NewGeneratorWithSeed 42 in
  is_uint64 (seed r) /\
  Generator_uint64r r
  = (set_seed r 11562461410679940185, 12558987674375533620) /\
  Generator_advance r 1617634303663
  = mkGenerator 4678178747650328712 1617634303663 46132
      16846851108956068306.
Proof.
  intros r.
  assert (Hs : is_uint64 (seed r)) by (cbn; unints; lia).
  split; [exact Hs|].
  destruct (uint64r_advance_spec r 1617634303663 Hs) as [H1 H2].
  split; [rewrite H1 | rewrite H2]; reflexivity.
Defined.

Lemma wf_UULID_generated t h l :
  wf_UULID (timestamp_bytes t ++ entropy_bytes h l).
Proof.
  split; [reflexivity|].
  unfold timestamp_bytes, entropy_bytes; cbn [app].
  repeat (apply Forall_cons; [apply byte_range|]). apply Forall_nil.
Qed.

(** C3, amended. Whenever the current millisecond differs from the
    generator's last-seen one, smaller values included, and does not
    exceed [MaxTimestamp], [New] succeeds: both counter halves come from
    two runs of the entropy step, the new millisecond is recorded as last
    seen, and the identifier holds the millisecond in bytes 0 to 5 and
    the fresh counter in bytes 6 to 15. *)
Theorem New_other_ms_regenerates :
  forall (r : Generator) (now : time.Time),
    wf_Generator r ->
    Timestamp now <> ms r -> Timestamp now <= MaxTimestamp ->
    let r1 := fst (Generator_uint64r (set_ms r (Timestamp now))) in
    let v1 := snd (Generator_uint64r (set_ms r (Timestamp now))) in
    let r2 := fst (Generator_uint64r (set_hi r1 (uint16 v1))) in
    let v2 := snd (Generator_uint64r (set_hi r1 (uint16 v1))) in
    exists id,
      Generator_New r now = (Generator_advance r (Timestamp now), (id, None)) /\
      Generator_advance r (Timestamp now)
      = mkGenerator (seed r2) (Timestamp now) (uint16 v1) v2 /\
      wf_UULID id /\ UULID_Timestamp id = Timestamp now /\
      skipn 6 id = entropy_bytes (uint16 v1) v2 /\
      entropy80 id = counter80 (Generator_advance r (Timestamp now)).
Proof.
  intros r now Hwf Hne Hmax. pose proof Hwf as (Hs & Hm & Hh & Hl).
  pose proof (Timestamp_range now) as Ht.
  cbv zeta.
  rewrite (uint64r_eq (set_ms r (Timestamp now))) by exact Hs.
  cbn [fst snd seed set_seed set_ms set_hi].
  rewrite uint64r_eq by (cbn; apply spec_step_seed_range).
  cbn [fst snd seed set_seed set_ms set_hi ms hi lo].
  rewrite New_cases by exact Hwf. cbv zeta.
  destruct (Timestamp now >? MaxTimestamp) eqn:Emax;
    [apply Z.gtb_lt in Emax; lia|].
  destruct (ms r =? Timestamp now) eqn:Ems;
    [apply Z.eqb_eq in Ems; congruence|].
  eexists. split; [reflexivity|].
  rewrite advance_eq by exact Hs.
  split; [reflexivity|].
  split; [apply wf_UULID_generated|].
  split.
  { rewrite UULID_Timestamp_be by apply wf_UULID_generated.
    cbn [timestamp_bytes app firstn]. apply be_value_uint48.
    unfold is_uint64 in Ht. lia. }
  split; [reflexivity|].
  unfold timestamp_bytes; cbn [app].
  rewrite entropy80_cons6
    by (try apply uint16_range; apply spec_step_output_range).
  reflexivity.
Qed.

Lemma New_other_ms_regenerates_witness :
  let r := mkGenerator 42 1617634303663 46132 16846851108956068306 in
  let now := Time 1617634303000 in
  wf_Generator r /\ Timestamp now < ms r /\
  exists id,
    Generator_New r now = (Generator_advance r (Timestamp now), (id, None)) /\
    UULID_Timestamp id = Timestamp now /\
    entropy80 id = counter80 (Generator_advance r (Timestamp now)).
Proof.
  intros r now.
  assert (Hwf : wf_Generator r) by (unfold wf_Generator; cbn; unints; lia).
  assert (Hlt : Timestamp now < ms r) by reflexivity.
  split; [exact Hwf|]. split; [exact Hlt|].
  destruct (New_other_ms_regenerates r now Hwf)
    as (id & H1 & _ & _ & H3 & _ & H5).
  - intros E. rewrite E in Hlt. exact (Z.lt_irrefl _ Hlt).
  - discriminate.
  - exists id. split; [exact H1|]. split; [exact H3 | exact H5].
Defined.

(** [ErrSmallTime] is declared by the package and returned by no path of
    [New]. *)
Lemma New_never_ErrSmallTime r now :
  wf_Generator r -> snd (snd (Generator_New r now)) <> Some ErrSmallTime.
Proof.
  intros Hwf. rewrite New_cases by exact Hwf. cbv zeta.
  destruct (Timestamp now >? MaxTimestamp); [discriminate|].
  destruct (ms r =? Timestamp now); [|discriminate].
  destruct (lo r <? 2 ^ 64 - 1); [discriminate|].
  destruct (hi r <? 2 ^ 16 - 1); discriminate.
Qed.

(** C3 as stated fails: the range check of [SetTimestamp] comes before
    the entropy step, and a clock reading above [MaxTimestamp] (here the
    first millisecond beyond it, in the year 10889) differs from the
    last-seen millisecond and [New] fails on it with [ErrBigTime], the
    generator unchanged. *)
Lemma New_other_ms_too_large :
  let r := NewGeneratorWithSeed 42 in
  let now := Time 281474976710656 in
  wf_Generator r /\ Timestamp now <> ms r /\
  Generator_New r now = (r, (UULID_zero, Some ErrBigTime)).
Proof.
  intros r now. split; [|split].
  - unfold wf_Generator; cbn; unints; lia.
  - discriminate.
  - reflexivity.
Qed.

(** ** Time codec *)

Lemma int64_id z : 0 <= z < 2 ^ 63 -> int64 z = z.
Proof. intros Hz. unints. rewrite Z.mod_small by lia. lia. Qed.

Lemma Time_fields ms0 :
  is_uint64 ms0 ->
  Time ms0 = time.mkTime (ms0 / 1000) ((ms0 mod 1000) * 1000000).
Proof.
  intros Hms. unfold Time.
  assert (Hq : 0 <= ms0 / 1000 < 2 ^ 63).
  { unints. split; [apply Z.div_pos; lia | apply Z.div_lt_upper_bound; lia]. }
  assert (Hr : 0 <= ms0 mod 1000 < 1000) by (apply Z.mod_pos_bound; lia).
  rewrite (uint64_id (ms0 mod 1000 * 1000000)) by (unints; lia).
  rewrite !int64_id by (unints; lia).
  unfold time.Unix.
  destruct (ms0 mod 1000 * 1000000 <? 0) eqn:E1;
    [apply Z.ltb_lt in E1; lia|].
  destruct (ms0 mod 1000 * 1000000 >=? 1000000000) eqn:E2;
    [apply Z.geb_le in E2; lia|].
  reflexivity.
Qed.

Lemma Timestamp_Time ms0 : is_uint64 ms0 -> Timestamp (Time ms0) = ms0.
Proof.
  intros Hms. rewrite Time_fields by exact Hms.
  unfold Timestamp, time.Time_Unix, time.Time_Nanosecond, time.Millisecond.
  cbn [time.sec time.nsec].
  assert (Hq : 0 <= ms0 / 1000 < 2 ^ 63).
  { unints. split; [apply Z.div_pos; lia | apply Z.div_lt_upper_bound; lia]. }
  assert (Hr : 0 <= ms0 mod 1000 < 1000) by (apply Z.mod_pos_bound; lia).
  rewrite Z.quot_div_nonneg by lia.
  rewrite Z.div_mul by lia.
  pose proof (Z.div_mod ms0 1000 ltac:(lia)) as E.
  rewrite (uint64_id (ms0 / 1000)) by (unints; lia).
  rewrite (uint64_id (ms0 / 1000 * 1000)) by (unints; lia).
  rewrite (uint64_id (ms0 mod 1000)) by (unints; lia).
  rewrite uint64_id by (unints; lia).
  lia.
Qed.

(** C6. For every millisecond value in [[0, 2^48 - 1]], converting it to
    a wall-clock time and back gives it again. *)
Theorem Timestamp_Time_roundtrip :
  forall ms0 : Z, 0 <= ms0 <= 2 ^ 48 - 1 -> Timestamp (Time ms0) = ms0.
Proof.
  intros ms0 Hms. apply Timestamp_Time. unints.
  change (2 ^ 48 - 1) with 281474976710655 in Hms. lia.
Qed.

Lemma Timestamp_Time_roundtrip_witness :
  0 <= 1617634303663 <= 2 ^ 48 - 1 /\
  Timestamp (Time 1617634303663) = 1617634303663 /\
  Timestamp MaxTime = MaxTimestamp.
Proof.
  assert (H1 : 0 <= 1617634303663 <= 2 ^ 48 - 1)
    by (change (2 ^ 48 - 1) with 281474976710655; lia).
  assert (H2 : 0 <= MaxTimestamp <= 2 ^ 48 - 1)
    by (change (2 ^ 48 - 1) with 281474976710655; unfold MaxTimestamp; lia).
  split; [exact H1|]. split.
  - exact (Timestamp_Time_roundtrip 1617634303663 H1).
  - exact (Timestamp_Time_roundtrip MaxTimestamp H2).
Defined.

(** ** encoding/hex *)

Lemma forall_below (n : nat) (P : Z -> bool) :
  forallb P (map Z.of_nat (seq 0 n)) = true ->
  forall v, 0 <= v < Z.of_nat n -> P v = true.
Proof.
  intros H v Hv. rewrite forallb_forall in H. apply H.
  apply in_map_iff. exists (Z.to_nat v). split; [lia|].
  apply in_seq. lia.
Qed.

Lemma fromHexChar_digits v :
  is_byte v ->
  hex.fromHexChar (nth (Z.to_nat (Z.shiftr v 4)) hex.hextable 0)
  = Some (Z.shiftr v 4) /\
  hex.fromHexChar (nth (Z.to_nat (Z.land v 15)) hex.hextable 0)
  = Some (Z.land v 15) /\
  byte (Z.lor (Z.shiftl (Z.shiftr v 4) 4) (Z.land v 15)) = v.
Proof.
  intros Hv.
  assert (H : digits_checked v = true).
  { revert v Hv. apply (forall_below 256 digits_checked).
    vm_compute. reflexivity. }
  unfold digits_checked in H.
  destruct (hex.fromHexChar (nth (Z.to_nat (Z.shiftr v 4)) hex.hextable 0))
    as [a|]; [|discriminate H].
  destruct (hex.fromHexChar (nth (Z.to_nat (Z.land v 15)) hex.hextable 0))
    as [b|]; [|discriminate H].
  apply andb_prop in H. destruct H as [H H3].
  apply andb_prop in H. destruct H as [H1 H2].
  apply Z.eqb_eq in H1, H2, H3. subst a b. repeat split. exact H3.
Qed.

(** Decoding the rendering of a byte string gives the byte string. *)
Lemma hex_decoded_hex_string vs :
  is_bytes vs -> hex_decoded (hex_string vs) = (vs, None).
Proof.
  induction 1 as [|v vs Hv _ IH].
  - reflexivity.
  - destruct (fromHexChar_digits v Hv) as (E1 & E2 & E3).
    cbn [hex_string flat_map hex_digits app hex_decoded].
    rewrite E1, E2. fold (hex_string vs). rewrite IH, E3. reflexivity.
Qed.

Lemma list_pair_ind {A : Type} (P : list A -> Prop) :
  P [] -> (forall x, P [x]) ->
  (forall x y l, P l -> P (x :: y :: l)) ->
  forall l, P l.
Proof.
  intros H0 H1 H2. 
  assert (G : forall l, P l /\ forall x, P (x :: l)).
  { induction l as [|y l [IHa IHb]].
    - split; [exact H0 | exact H1].
    - split; [apply IHb|]. intros x. apply H2. exact IHa. }
  intros l. apply G.
Qed.

Lemma hex_decoded_bytes src : is_bytes (fst (hex_decoded src)).
Proof.
  induction src as [|p|p q rest IH] using list_pair_ind.
  - constructor.
  - cbn. destruct (hex.fromHexChar p); constructor.
  - cbn [hex_decoded].
    destruct (hex.fromHexChar p); [|constructor].
    destruct (hex.fromHexChar q); [|constructor].
    destruct (hex_decoded rest) as [l e]. cbn [fst] in *.
    constructor; [apply byte_range | exact IH].
Qed.

(** A decode stops with an error exactly at the first character that is
    not a hexadecimal digit (the input having an even length). *)
Lemma hex_decoded_error src e :
  Nat.even (length src) = true ->
  snd (hex_decoded src) = Some e ->
  exists pre c post,
    src = pre ++ c :: post /\ forallb is_hex pre = true /\
    hex.fromHexChar c = None /\ e = hex_InvalidByteError c /\
    length (fst (hex_decoded src)) = Nat.div2 (length pre).
Proof.
  revert e.
  induction src as [|p|p q rest IH] using list_pair_ind; intros e Hev He.
  - discriminate He.
  - discriminate Hev.
  - cbn [hex_decoded] in *.
    destruct (hex.fromHexChar p) as [a|] eqn:Ep.
    + destruct (hex.fromHexChar q) as [b|] eqn:Eq.
      * destruct (hex_decoded rest) as [l e'] eqn:Er. cbn [fst snd] in *.
        destruct (IH e Hev He) as (pre & c & post & E1 & E2 & E3 & E4 & E5).
        exists (p :: q :: pre), c, post. subst rest.
        cbn [forallb app length Nat.div2]. unfold is_hex at 1 2.
        rewrite Ep, Eq, E2, E5. repeat split; assumption.
      * cbn in He. injection He as <-.
        exists [p], q, rest. cbn. unfold is_hex. rewrite Ep.
        repeat split; assumption.
    + cbn in He. injection He as <-.
      exists [], p, (q :: rest). cbn. repeat split; assumption.
Qed.

Lemma hex_decoded_ok src :
  Nat.even (length src) = true ->
  (snd (hex_decoded src) = None <-> forallb is_hex src = true) /\
  (snd (hex_decoded src) = None ->
   length src = (2 * length (fst (hex_decoded src)))%nat).
Proof.
  induction src as [|p|p q rest IH] using list_pair_ind; intros Hev.
  - cbn. repeat split; reflexivity.
  - discriminate Hev.
  - cbn [hex_decoded forallb]. unfold is_hex at 1 2.
    destruct (hex.fromHexChar p) as [a|] eqn:Ep;
      [|cbn; repeat split; discriminate].
    destruct (hex.fromHexChar q) as [b|] eqn:Eq;
      [|cbn; repeat split; discriminate].
    destruct (hex_decoded rest) as [l e'] eqn:Er. cbn [fst snd andb] in *.
    destruct (IH Hev) as [I1 I2]. split; [exact I1|].
    intros He. cbn [length]. rewrite (I2 He). lia.
Qed.

(** ** The decoder *)

Ltac run_decoder :=
  cbv [parse decode_into hex.Decode hex.Decode_from decode_prefix hex_decoded
       digits36 slice splice store and_then
       firstn skipn app length Nat.eqb Nat.ltb Nat.leb Nat.sub Nat.add
       fst snd];
  repeat (match goal with
          | |- context [hex.fromHexChar ?c] =>
              destruct (hex.fromHexChar c); [|reflexivity]
          end);
  try reflexivity.

Lemma parse_16 data id :
  length data = 16%nat -> length id = 16%nat ->
  parse data id = check_timestamp data.
Proof.
  intros Hd Hi. explode data Hd 16. explode id Hi 16. reflexivity.
Qed.

Lemma parse_32 data id :
  length data = 32%nat -> length id = 16%nat ->
  parse data id = decode_prefix data id >>= check_timestamp.
Proof.
  intros Hd Hi. explode data Hd 32. explode id Hi 16.
  run_decoder.
Qed.

Lemma parse_36 data id :
  length data = 36%nat -> length id = 16%nat ->
  parse data id = decode_prefix (digits36 data) id >>= check_timestamp.
Proof.
  intros Hd Hi. explode data Hd 36. explode id Hi 16.
  run_decoder.
Qed.

(** ** Encoding *)

Ltac run_encoder :=
  cbv [UULID_MarshalText UULID_MarshalTextTo encode_into hex.Encode
       hex.Encode_from store_byte store slice splice and_then digits36
       hex_string hex_digits flat_map repeat HexEncodedSize
       firstn skipn app length Nat.eqb negb Nat.ltb Nat.leb Nat.sub Nat.add
       nth fst snd].

(** The text form is the lower-case hexadecimal rendering of the five
    byte ranges, separated by ['-']. *)
Lemma MarshalText_eq id :
  length id = 16%nat ->
  UULID_MarshalText id
  = (hex_string (slice id 0 4) ++ 45 :: hex_string (slice id 4 6)
       ++ 45 :: hex_string (slice id 6 8) ++ 45 :: hex_string (slice id 8 10)
       ++ 45 :: hex_string (slice id 10 16), None).
Proof.
  intros Hlen. explode id Hlen 16. run_encoder. reflexivity.
Qed.

Lemma MarshalText_digits id :
  length id = 16%nat ->
  exists text,
    UULID_MarshalText id = (text, None) /\ length text = 36%nat /\
    digits36 text = hex_string id.
Proof.
  intros Hlen. eexists. split; [apply MarshalText_eq; exact Hlen|].
  explode id Hlen 16. run_encoder. split; reflexivity.
Qed.

Lemma MarshalBinary_eq id :
  length id = 16%nat -> UULID_MarshalBinary id = (id, None).
Proof. intros Hlen. explode id Hlen 16. reflexivity. Qed.

Lemma parse_hex_string_36 text id dst :
  wf_UULID id -> length dst = 16%nat ->
  length text = 36%nat -> digits36 text = hex_string id ->
  parse text dst = (id, None).
Proof.
  intros Hwf Hdst Htext Hdig. pose proof Hwf as [Hlen Hb].
  rewrite parse_36 by assumption.
  unfold decode_prefix. rewrite Hdig, hex_decoded_hex_string by exact Hb.
  rewrite skipn_all2 by (rewrite Hlen, Hdst; apply Nat.le_refl).
  rewrite app_nil_r. cbn [and_then]. apply check_timestamp_ok. exact Hwf.
Qed.

(** C4. For every identifier, parsing its 36-character text encoding
    gives the identifier again, and so does parsing its 16-byte binary
    encoding; both for [Parse] and for a decode into any destination. *)
Theorem Parse_Marshal_roundtrip :
  forall id dst : UULID,
    wf_UULID id -> length dst = 16%nat ->
    exists text bin,
      UULID_MarshalText id = (text, None) /\
      UULID_MarshalBinary id = (bin, None) /\
      Parse text = (id, None) /\ Parse bin = (id, None) /\
      parse text dst = (id, None) /\ parse bin dst = (id, None).
Proof.
  intros id dst Hwf Hdst. pose proof Hwf as [Hlen Hb].
  destruct (MarshalText_digits id Hlen) as (text & Ht & Hlt & Hdig).
  exists text, id.
  split; [exact Ht|]. split; [apply MarshalBinary_eq; exact Hlen|].
  assert (Hbin : forall d, length d = 16%nat -> parse id d = (id, None)).
  { intros d Hd. rewrite parse_16 by assumption.
    apply check_timestamp_ok. exact Hwf. }
  repeat split.
  - apply parse_hex_string_36; [exact Hwf | reflexivity | assumption..].
  - apply Hbin. reflexivity.
  - apply parse_hex_string_36; assumption.
  - apply Hbin. exact Hdst.
Qed.

Lemma is_bytes_dec_true l :
  forallb (fun b => (0 <=? b) && (b <? 256)) l = true -> is_bytes l.
Proof.
  intros H. apply Forall_forall. intros x Hx.
  rewrite forallb_forall in H. specialize (H x Hx).
  apply andb_prop in H. destruct H as [H1 H2].
  apply Z.leb_le in H1. apply Z.ltb_lt in H2. unfold is_byte. lia.
Defined.

Lemma Parse_Marshal_roundtrip_witness :
  let id := [1; 120; 162; 132; 158; 175; 179; 231; 3; 109; 91; 27; 159; 60;
             215; 83] in
  wf_UULID id /\
  exists text bin,
    UULID_MarshalText id = (text, None) /\
    UULID_MarshalBinary id = (bin, None) /\
    Parse text = (id, None) /\ Parse bin = (id, None) /\
    parse text UULID_zero = (id, None) /\ parse bin UULID_zero = (id, None).
Proof.
  intros id.
  assert (Hwf : wf_UULID id).
  { split; [reflexivity | apply is_bytes_dec_true; reflexivity]. }
  split; [exact Hwf|].
  exact (Parse_Marshal_roundtrip id UULID_zero Hwf eq_refl).
Defined.

(** The scenario of the package's tests: the text parses to timestamp
    1617634303663 and entropy [b3e7036d5b1b9f3cd753], and is rendered
    back unchanged. *)
Example Parse_encoded :
  exists id,
    Parse encoded = (id, None) /\
    UULID_Timestamp id = 1617634303663 /\
    UULID_Entropy id = [179; 231; 3; 109; 91; 27; 159; 60; 215; 83] /\
    UULID_String id = encoded.
Proof.
  exists [1; 120; 162; 132; 158; 175; 179; 231; 3; 109; 91; 27; 159; 60;
          215; 83].
  repeat split; vm_compute; reflexivity.
Qed.

(** ** Scan *)

(** C8, amended. For every source that is not nil and is neither a
    string nor a byte slice, [Scan] fails with [ErrInvalidType] and leaves
    the identifier as it was; on a nil source it returns no error and
    leaves the identifier as it was. *)
Theorem Scan_invalid_type :
  forall (id : UULID) (src : source),
    src <> src_nil ->
    (forall s, src <> src_string s) -> (forall b, src <> src_bytes b) ->
    UULID_Scan id src = (id, Some ErrInvalidType) /\
    UULID_Scan id src_nil = (id, None).
Proof.
  intros id src Hnil Hstr Hbytes. split; [|reflexivity].
  destruct src; try reflexivity.
  - contradiction Hnil. reflexivity.
  - contradiction (Hstr s). reflexivity.
  - contradiction (Hbytes b). reflexivity.
Qed.

Lemma Scan_invalid_type_witness :
  UULID_Scan UULID_zero (src_int64 7) = (UULID_zero, Some ErrInvalidType) /\
  UULID_Scan UULID_zero src_nil = (UULID_zero, None).
Proof.
  apply (Scan_invalid_type UULID_zero (src_int64 7)); intros; discriminate.
Defined.

(** C8 as stated fails: a nil source is neither a string nor a byte
    slice, and [Scan] returns no error on it. *)
Lemma Scan_nil_no_error :
  (forall s, src_nil <> src_string s) /\ (forall b, src_nil <> src_bytes b) /\
  UULID_Scan UULID_zero src_nil <> (UULID_zero, Some ErrInvalidType) /\
  snd (UULID_Scan UULID_zero src_nil) = None.
Proof.
  repeat split; try discriminate.
Qed.

(** ** Routing of [parse] *)

Lemma parse_other_length data id :
  length data <> 16%nat -> length data <> 32%nat -> length data <> 36%nat ->
  parse data id = (id, Some ErrDataSize).
Proof.
  intros H16 H32 H36. unfold parse.
  destruct (Nat.eqb_spec (length data) 16); [contradiction|].
  destruct (Nat.eqb_spec (length data) 32); [contradiction|].
  destruct (Nat.eqb_spec (length data) 36); [contradiction|].
  reflexivity.
Qed.

(** The 36-character form, group by group. *)
Lemma parse_36_groups data id b1 b2 b3 b4 b5 :
  length data = 36%nat -> length id = 16%nat ->
  hex_decoded (slice data 0 8) = (b1, None) ->
  hex_decoded (slice data 9 13) = (b2, None) ->
  hex_decoded (slice data 14 18) = (b3, None) ->
  hex_decoded (slice data 19 23) = (b4, None) ->
  hex_decoded (slice data 24 36) = (b5, None) ->
  parse data id = check_timestamp (b1 ++ b2 ++ b3 ++ b4 ++ b5) /\
  length b1 = 4%nat /\ length b2 = 2%nat /\ length b3 = 2%nat /\
  length b4 = 2%nat /\ length b5 = 6%nat.
Proof.
  intros Hd Hi. explode data Hd 36. explode id Hi 16.
  cbv [parse decode_into hex.Decode hex.Decode_from hex_decoded
       slice splice store and_then
       firstn skipn length Nat.eqb Nat.ltb Nat.leb Nat.sub Nat.add
       fst snd].
  repeat (match goal with
          | |- context [hex.fromHexChar ?c] =>
              destruct (hex.fromHexChar c); [|intros; congruence]
          end).
  intros H1 H2 H3 H4 H5.
  injection H1 as <-. injection H2 as <-. injection H3 as <-.
  injection H4 as <-. injection H5 as <-.
  repeat split.
Qed.

Lemma hex_decoded_error_kind src e :
  snd (hex_decoded src) = Some e ->
  e = hex_ErrLength \/ exists c, e = hex_InvalidByteError c.
Proof.
  revert e.
  induction src as [|p|p q rest IH] using list_pair_ind; intros e He.
  - discriminate He.
  - cbn in He. destruct (hex.fromHexChar p); injection He as <-;
      [left; reflexivity | right; eexists; reflexivity].
  - cbn [hex_decoded] in He.
    destruct (hex.fromHexChar p);
      [|injection He as <-; right; eexists; reflexivity].
    destruct (hex.fromHexChar q);
      [|injection He as <-; right; eexists; reflexivity].
    destruct (hex_decoded rest) as [l e']. cbn [fst snd] in *.
    apply IH. exact He.
Qed.

(** A malformed digit makes [parse] fail with the error of [hex.Decode]
    for the first such digit. *)
Lemma decode_prefix_malformed digits id :
  Nat.even (length digits) = true ->
  forallb is_hex digits = false ->
  exists pre c post,
    digits = pre ++ c :: post /\ forallb is_hex pre = true /\
    hex.fromHexChar c = None /\
    snd (decode_prefix digits id >>= check_timestamp)
    = Some (hex_InvalidByteError c).
Proof.
  intros Hev Hbad.
  destruct (hex_decoded_ok digits Hev) as [Hok _].
  destruct (snd (hex_decoded digits)) as [e|] eqn:He.
  - destruct (hex_decoded_error digits e Hev He)
      as (pre & c & post & E1 & E2 & E3 & E4 & _).
    exists pre, c, post. repeat split; try assumption.
    unfold decode_prefix. destruct (hex_decoded digits) as [ds e0].
    cbn [snd] in He. subst e0. cbn. congruence.
  - rewrite (proj1 Hok eq_refl) in Hbad. discriminate Hbad.
Qed.

Lemma digits36_length data :
  length data = 36%nat -> length (digits36 data) = 32%nat.
Proof. intros Hd. explode data Hd 36. reflexivity. Qed.

(** C5. [parse] is routed by the length of its input: 16 bytes are
    copied, 32 characters are hex-decoded into the sixteen bytes, 36
    characters are hex-decoded as five groups into the byte ranges
    [0:4], [4:6], [6:8], [8:10] and [10:16]; any other length fails with
    [ErrDataSize].  A character that is not a hexadecimal digit makes the
    call fail with the decoder's error for it.  After a clean decode the
    timestamp is compared with [MaxTimestamp], and a larger one gives
    [ErrBigTime]. *)
Theorem parse_routing :
  forall (data : list Z) (id : UULID),
    wf_UULID id ->
    (length data <> 16%nat -> length data <> 32%nat ->
     length data <> 36%nat -> parse data id = (id, Some ErrDataSize)) /\
    (length data = 16%nat -> parse data id = check_timestamp data) /\
    (length data = 32%nat ->
     (forall bs, hex_decoded data = (bs, None) ->
                 parse data id = check_timestamp bs /\ length bs = 16%nat) /\
     (forallb is_hex data = false ->
      exists pre c post,
        data = pre ++ c :: post /\ forallb is_hex pre = true /\
        hex.fromHexChar c = None /\
        snd (parse data id) = Some (hex_InvalidByteError c))) /\
    (length data = 36%nat ->
     (forall b1 b2 b3 b4 b5,
         hex_decoded (slice data 0 8) = (b1, None) ->
         hex_decoded (slice data 9 13) = (b2, None) ->
         hex_decoded (slice data 14 18) = (b3, None) ->
         hex_decoded (slice data 19 23) = (b4, None) ->
         hex_decoded (slice data 24 36) = (b5, None) ->
         parse data id = check_timestamp (b1 ++ b2 ++ b3 ++ b4 ++ b5) /\
         length b1 = 4%nat /\ length b2 = 2%nat /\ length b3 = 2%nat /\
         length b4 = 2%nat /\ length b5 = 6%nat) /\
     (forallb is_hex (digits36 data) = false ->
      exists pre c post,
        digits36 data = pre ++ c :: post /\ forallb is_hex pre = true /\
        hex.fromHexChar c = None /\
        snd (parse data id) = Some (hex_InvalidByteError c))) /\
    (forall decoded : UULID,
        check_timestamp decoded
        = (decoded,
           if UULID_Timestamp decoded >? MaxTimestamp then Some ErrBigTime
           else None)).
Proof.
  intros data id [Hlen Hb].
  split; [apply parse_other_length|].
  split; [intros Hd; apply parse_16; assumption|].
  split; [|split].
  - intros Hd. split.
    + intros bs Hbs. rewrite parse_32 by assumption.
      unfold decode_prefix. rewrite Hbs.
      assert (Hev : Nat.even (length data) = true) by (rewrite Hd; reflexivity).
      destruct (hex_decoded_ok data Hev) as [_ Hl].
      rewrite Hbs in Hl. cbn [fst snd] in Hl. specialize (Hl eq_refl).
      assert (Hbl : length bs = 16%nat) by lia.
      rewrite skipn_all2 by (rewrite Hbl, Hlen; apply Nat.le_refl).
      rewrite app_nil_r. split; [reflexivity | exact Hbl].
    + intros Hbad. rewrite parse_32 by assumption.
      apply decode_prefix_malformed; [rewrite Hd; reflexivity | exact Hbad].
  - intros Hd. split.
    + intros b1 b2 b3 b4 b5. apply parse_36_groups; assumption.
    + intros Hbad. rewrite parse_36 by assumption.
      apply decode_prefix_malformed;
        [rewrite digits36_length by exact Hd; reflexivity | exact Hbad].
  - intros decoded. unfold check_timestamp.
    destruct (UULID_Timestamp decoded >? MaxTimestamp); reflexivity.
Qed.

Lemma parse_routing_witness :
  wf_UULID UULID_zero /\
  parse encoded UULID_zero
  = check_timestamp
      ([1; 120; 162; 132] ++ [158; 175] ++ [179; 231] ++ [3; 109]
         ++ [91; 27; 159; 60; 215; 83]) /\
  parse [49; 50; 51; 52; 53; 54; 55; 56; 57; 48; 57; 48] UULID_zero
  = (UULID_zero, Some ErrDataSize).
Proof.
  assert (Hwf : wf_UULID UULID_zero).
  { split; [reflexivity | apply is_bytes_dec_true; reflexivity]. }
  split; [exact Hwf|].
  split.
  - destruct (parse_routing encoded UULID_zero Hwf) as (_ & _ & _ & H36 & _).
    destruct (H36 eq_refl) as [Hgroups _].
    apply (Hgroups [1; 120; 162; 132] [158; 175] [179; 231] [3; 109]
             [91; 27; 159; 60; 215; 83]); reflexivity.
  - destruct (parse_routing [49; 50; 51; 52; 53; 54; 55; 56; 57; 48; 57; 48]
                UULID_zero Hwf) as (H & _).
    apply H; discriminate.
Defined.

(** ** Failed decodes *)

Lemma hex_decoded_length_le src :
  (2 * length (fst (hex_decoded src)) <= length src)%nat.
Proof.
  induction src as [|p|p q rest IH] using list_pair_ind.
  - cbn. lia.
  - cbn. destruct (hex.fromHexChar p); cbn; lia.
  - cbn [hex_decoded].
    destruct (hex.fromHexChar p); [|cbn; lia].
    destruct (hex.fromHexChar q); [|cbn; lia].
    destruct (hex_decoded rest) as [l e]. cbn [fst length] in *. lia.
Qed.

Lemma decode_prefix_no_ErrBigTime digits id :
  wf_UULID id -> length digits = 32%nat ->
  snd (decode_prefix digits id >>= check_timestamp) <> Some ErrBigTime.
Proof.
  intros [Hlen Hb] Hd. unfold decode_prefix.
  pose proof (hex_decoded_length_le digits) as Hle.
  pose proof (hex_decoded_bytes digits) as Hds.
  pose proof (hex_decoded_error_kind digits) as Hkind.
  destruct (hex_decoded digits) as [ds e0]. cbn [fst snd] in *.
  destruct e0 as [e1|].
  - cbn. intros E. injection E as ->.
    destruct (Hkind _ eq_refl) as [E|[c E]]; discriminate E.
  - cbn [and_then]. rewrite check_timestamp_ok; [discriminate|].
    split.
    + rewrite length_app, length_skipn. unfold BinarySize in *. lia.
    + apply Forall_app. split; [exact Hds|].
      unfold is_bytes in Hb. rewrite <- (firstn_skipn (length ds) id) in Hb.
      apply Forall_app in Hb. apply Hb.
Qed.

(** The range check at the end of [parse] cannot fail on bytes: the
    48-bit field never holds more than [MaxTimestamp]. *)
Lemma parse_no_ErrBigTime data id :
  wf_UULID id -> is_bytes data -> snd (parse data id) <> Some ErrBigTime.
Proof.
  intros Hwf Hd. pose proof Hwf as [Hlen Hb].
  destruct (Nat.eq_dec (length data) 16) as [H16|N16].
  - rewrite parse_16 by assumption.
    rewrite check_timestamp_ok by (split; assumption). discriminate.
  - destruct (Nat.eq_dec (length data) 32) as [H32|N32].
    + rewrite parse_32 by assumption.
      apply decode_prefix_no_ErrBigTime; assumption.
    + destruct (Nat.eq_dec (length data) 36) as [H36|N36].
      * rewrite parse_36 by assumption.
        apply decode_prefix_no_ErrBigTime;
          [exact Hwf | apply digits36_length; exact H36].
      * rewrite parse_other_length by assumption. discriminate.
Qed.

(** ** Accessors of the identifier *)

Lemma div_mod_256 a b :
  0 <= b < 256 -> (a * 256 + b) / 256 = a /\ (a * 256 + b) mod 256 = b.
Proof.
  intros Hb. split.
  - rewrite Z.div_add_l by lia. rewrite Z.div_small by lia. lia.
  - rewrite Z.add_comm, Z.mod_add by lia. apply Z.mod_small. lia.
Qed.

(** The six bytes stored for the big-endian value of six bytes are those
    bytes. *)
Lemma timestamp_bytes_be b0 b1 b2 b3 b4 b5 :
  is_byte b0 -> is_byte b1 -> is_byte b2 -> is_byte b3 -> is_byte b4 ->
  is_byte b5 ->
  timestamp_bytes (be_value [b0; b1; b2; b3; b4; b5])
  = [b0; b1; b2; b3; b4; b5].
Proof.
  intros H0 H1 H2 H3 H4 H5.
  unfold timestamp_bytes, be_value. cbn [fold_left].
  shifts_to_div. unfold byte. pows.
  repeat (rewrite ?(proj1 (div_mod_256 _ _ H5)), ?(proj2 (div_mod_256 _ _ H5)),
            ?(proj1 (div_mod_256 _ _ H4)), ?(proj2 (div_mod_256 _ _ H4)),
            ?(proj1 (div_mod_256 _ _ H3)), ?(proj2 (div_mod_256 _ _ H3)),
            ?(proj1 (div_mod_256 _ _ H2)), ?(proj2 (div_mod_256 _ _ H2)),
            ?(proj1 (div_mod_256 _ _ H1)), ?(proj2 (div_mod_256 _ _ H1)),
            ?(proj1 (div_mod_256 _ _ H0)), ?(proj2 (div_mod_256 _ _ H0))).
  reflexivity.
Qed.

Ltac bytes_of H :=
  repeat match goal with
         | H' : is_bytes (_ :: _) |- _ => inversion H'; subst; clear H'
         | H' : Forall _ (_ :: _) |- _ => inversion H'; subst; clear H'
         | H' : Forall _ [] |- _ => clear H'
         | H' : is_bytes [] |- _ => clear H'
         end.

Lemma SetTimestamp_eq id t :
  length id = 16%nat -> t <= MaxTimestamp ->
  UULID_SetTimestamp id t = (timestamp_bytes t ++ skipn 6 id, None).
Proof.
  intros Hlen Ht. unfold UULID_SetTimestamp.
  destruct (t >? MaxTimestamp) eqn:E; [apply Z.gtb_lt in E; lia|].
  explode id Hlen 16. reflexivity.
Qed.

Lemma is_bytes_timestamp_bytes t : is_bytes (timestamp_bytes t).
Proof.
  unfold timestamp_bytes.
  repeat (apply Forall_cons; [apply byte_range|]). apply Forall_nil.
Qed.

Lemma is_bytes_skipn n l : is_bytes l -> is_bytes (skipn n l).
Proof.
  intros H. unfold is_bytes in *. rewrite <- (firstn_skipn n l) in H.
  apply Forall_app in H. apply H.
Qed.

Lemma is_bytes_firstn n l : is_bytes l -> is_bytes (firstn n l).
Proof.
  intros H. unfold is_bytes in *. rewrite <- (firstn_skipn n l) in H.
  apply Forall_app in H. apply H.
Qed.

(** X1. [SetTimestamp] accepts exactly the values up to [MaxTimestamp]:
    an accepted value is what [Timestamp] reads back, and the entropy is
    untouched; a larger value gives [ErrBigTime] and leaves the identifier
    as it was. *)
Theorem SetTimestamp_Timestamp :
  forall (id : UULID) (t : Z),
    wf_UULID id -> 0 <= t ->
    (t <= MaxTimestamp ->
     exists id',
       UULID_SetTimestamp id t = (id', None) /\ wf_UULID id' /\
       UULID_Timestamp id' = t /\ UULID_Entropy id' = UULID_Entropy id) /\
    (MaxTimestamp < t -> UULID_SetTimestamp id t = (id, Some ErrBigTime)).
Proof.
  intros id t [Hlen Hb] Ht0. split.
  - intros Ht. exists (timestamp_bytes t ++ skipn 6 id).
    split; [apply SetTimestamp_eq; assumption|].
    assert (Hwf : wf_UULID (timestamp_bytes t ++ skipn 6 id)).
    { split.
      - rewrite length_app, length_skipn, Hlen. reflexivity.
      - apply Forall_app. split;
          [apply is_bytes_timestamp_bytes | apply is_bytes_skipn; exact Hb]. }
    split; [exact Hwf|]. split.
    + rewrite UULID_Timestamp_be by exact Hwf.
      cbn [timestamp_bytes app firstn]. apply be_value_uint48. lia.
    + unfold UULID_Entropy. cbn [timestamp_bytes app skipn]. reflexivity.
  - intros Ht. unfold UULID_SetTimestamp.
    destruct (t >? MaxTimestamp) eqn:E; [reflexivity|].
    rewrite Z.gtb_ltb in E. apply Z.ltb_ge in E. lia.
Qed.

Lemma wf_zero : wf_UULID UULID_zero.
Proof. split; [reflexivity | apply is_bytes_dec_true; reflexivity]. Defined.

Lemma SetTimestamp_Timestamp_witness :
  wf_UULID UULID_zero /\
  (exists id',
      UULID_SetTimestamp UULID_zero MaxTimestamp = (id', None) /\
      wf_UULID id' /\ UULID_Timestamp id' = MaxTimestamp /\
      UULID_Entropy id' = UULID_Entropy UULID_zero) /\
  UULID_SetTimestamp UULID_zero (MaxTimestamp + 1)
  = (UULID_zero, Some ErrBigTime).
Proof.
  split; [exact wf_zero|].
  split.
  - apply (SetTimestamp_Timestamp UULID_zero MaxTimestamp wf_zero);
      unfold MaxTimestamp; lia.
  - apply (SetTimestamp_Timestamp UULID_zero (MaxTimestamp + 1) wf_zero);
      unfold MaxTimestamp; lia.
Defined.

Lemma Entropy_eq id : length id = 16%nat -> UULID_Entropy id = skipn 6 id.
Proof. intros Hlen. explode id Hlen 16. reflexivity. Qed.

Lemma SetEntropy_eq id e :
  length id = 16%nat -> length e = 10%nat ->
  UULID_SetEntropy id e = (firstn 6 id ++ e, None).
Proof.
  intros Hlen He. explode id Hlen 16. explode e He 10. reflexivity.
Qed.

(** X2. [SetEntropy] accepts exactly ten bytes: they are what [Entropy]
    reads back, and the timestamp is untouched; any other length gives
    [ErrDataSize] and leaves the identifier as it was. *)
Theorem SetEntropy_Entropy :
  forall (id : UULID) (e : list Z),
    wf_UULID id -> is_bytes e ->
    (length e = 10%nat ->
     exists id',
       UULID_SetEntropy id e = (id', None) /\ wf_UULID id' /\
       UULID_Entropy id' = e /\ UULID_Timestamp id' = UULID_Timestamp id) /\
    (length e <> 10%nat -> UULID_SetEntropy id e = (id, Some ErrDataSize)).
Proof.
  intros id e [Hlen Hb] Heb. split.
  - intros He. exists (firstn 6 id ++ e).
    split; [apply SetEntropy_eq; assumption|].
    assert (Hl : length (firstn 6 id ++ e) = 16%nat).
    { rewrite length_app, length_firstn, Hlen, He. reflexivity. }
    split; [|split].
    + split; [exact Hl|]. apply Forall_app.
      split; [apply is_bytes_firstn; exact Hb | exact Heb].
    + clear Hl. explode id Hlen 16. explode e He 10. reflexivity.
    + clear Hl. explode id Hlen 16. explode e He 10. reflexivity.
  - intros He. unfold UULID_SetEntropy.
    destruct (Nat.eqb_spec (length e) 10); [contradiction|]. reflexivity.
Qed.

Lemma SetEntropy_Entropy_witness :
  let e := [179; 231; 3; 109; 91; 27; 159; 60; 215; 83] in
  wf_UULID UULID_zero /\ is_bytes e /\
  (exists id',
      UULID_SetEntropy UULID_zero e = (id', None) /\ wf_UULID id' /\
      UULID_Entropy id' = e /\
      UULID_Timestamp id' = UULID_Timestamp UULID_zero) /\
  UULID_SetEntropy UULID_zero [1; 2; 3] = (UULID_zero, Some ErrDataSize).
Proof.
  intros e.
  assert (He : is_bytes e) by (apply is_bytes_dec_true; reflexivity).
  assert (H3 : is_bytes [1; 2; 3]) by (apply is_bytes_dec_true; reflexivity).
  split; [exact wf_zero|]. split; [exact He|]. split.
  - apply (SetEntropy_Entropy UULID_zero e wf_zero He). reflexivity.
  - apply (SetEntropy_Entropy UULID_zero [1; 2; 3] wf_zero H3). discriminate.
Defined.

(** X3. Writing back what was read changes nothing and never fails:
    [SetTimestamp] of the identifier's [Timestamp], [SetEntropy] of its
    [Entropy], [SetTime] of its [Time]; and [Time] loses nothing of the
    timestamp. *)
Theorem set_what_was_read :
  forall id : UULID,
    wf_UULID id ->
    UULID_SetTimestamp id (UULID_Timestamp id) = (id, None) /\
    UULID_SetEntropy id (UULID_Entropy id) = (id, None) /\
    Timestamp (UULID_Time id) = UULID_Timestamp id /\
    UULID_SetTime id (UULID_Time id) = (id, None).
Proof.
  intros id Hwf. pose proof Hwf as [Hlen Hb].
  pose proof (UULID_Timestamp_le_Max id Hwf) as Hmax.
  assert (H1 : UULID_SetTimestamp id (UULID_Timestamp id) = (id, None)).
  { rewrite SetTimestamp_eq by (try exact Hlen; lia).
    rewrite UULID_Timestamp_be by exact Hwf.
    explode id Hlen 16. bytes_of Hb. cbn [firstn skipn].
    rewrite timestamp_bytes_be by assumption. reflexivity. }
  assert (H3 : Timestamp (UULID_Time id) = UULID_Timestamp id).
  { unfold UULID_Time. apply Timestamp_Time. unints. lia. }
  split; [exact H1|]. split; [|split; [exact H3|]].
  - rewrite Entropy_eq by exact Hlen.
    rewrite SetEntropy_eq by (try exact Hlen; rewrite length_skipn, Hlen;
                              reflexivity).
    rewrite firstn_skipn. reflexivity.
  - unfold UULID_SetTime. rewrite H3. exact H1.
Qed.

Lemma set_what_was_read_witness :
  let id := [1; 120; 162; 132; 158; 175; 179; 231; 3; 109; 91; 27; 159; 60;
             215; 83] in
  wf_UULID id /\
  UULID_SetTimestamp id (UULID_Timestamp id) = (id, None) /\
  UULID_SetEntropy id (UULID_Entropy id) = (id, None) /\
  Timestamp (UULID_Time id) = UULID_Timestamp id /\
  UULID_SetTime id (UULID_Time id) = (id, None).
Proof.
  intros id.
  assert (Hwf : wf_UULID id).
  { split; [reflexivity | apply is_bytes_dec_true; reflexivity]. }
  split; [exact Hwf | exact (set_what_was_read id Hwf)].
Defined.

(** ** Compare *)

Lemma be_value_cons x l :
  be_value (x :: l) = x * 256 ^ Z.of_nat (length l) + be_value l.
Proof.
  change (x :: l) with ([x] ++ l). rewrite be_value_app.
  unfold be_value at 1. cbn [fold_left]. lia.
Qed.

(** On byte strings of one length, [Compare] is the order of the
    big-endian values. *)
Lemma Compare_be a :
  forall b,
    is_bytes a -> is_bytes b -> length a = length b ->
    bytes.Compare a b
    = match be_value a ?= be_value b with Lt => -1 | Eq => 0 | Gt => 1 end.
Proof.
  induction a as [|x a IH]; intros [|y b] Ha Hb Hlen; try discriminate Hlen.
  - reflexivity.
  - inversion Ha as [|? ? Hx Ha']; subst. inversion Hb as [|? ? Hy Hb']; subst.
    injection Hlen as Hlen. cbn [bytes.Compare].
    rewrite !be_value_cons. rewrite <- Hlen.
    pose proof (be_value_bound a Ha') as Ba.
    pose proof (be_value_bound b Hb') as Bb. rewrite <- Hlen in Bb.
    set (P := 256 ^ Z.of_nat (length a)) in *.
    unfold is_byte in Hx, Hy.
    destruct (x <? y) eqn:Exy.
    + apply Z.ltb_lt in Exy.
      assert ((x + 1) * P <= y * P) by (apply Z.mul_le_mono_nonneg_r; lia).
      assert (E : (x * P + be_value a ?= y * P + be_value b) = Lt)
        by (apply Z.compare_lt_iff; lia).
      rewrite E. reflexivity.
    + apply Z.ltb_ge in Exy. destruct (y <? x) eqn:Eyx.
      * apply Z.ltb_lt in Eyx.
        assert ((y + 1) * P <= x * P) by (apply Z.mul_le_mono_nonneg_r; lia).
        assert (E : (x * P + be_value a ?= y * P + be_value b) = Gt)
          by (apply Z.compare_gt_iff; lia).
        rewrite E. reflexivity.
      * apply Z.ltb_ge in Eyx. assert (x = y) by lia. subst y.
        rewrite (IH b Ha' Hb' Hlen).
        rewrite Z.add_compare_mono_l. reflexivity.
Qed.

Lemma Compare_eq_iff a :
  forall b, length a = length b -> (bytes.Compare a b = 0 <-> a = b).
Proof.
  induction a as [|x a IH]; intros [|y b] Hlen; try discriminate Hlen.
  - split; reflexivity.
  - injection Hlen as Hlen. cbn [bytes.Compare].
    destruct (x <? y) eqn:Exy.
    + apply Z.ltb_lt in Exy. split; [discriminate|].
      intros E. injection E as -> _. lia.
    + apply Z.ltb_ge in Exy. destruct (y <? x) eqn:Eyx.
      * apply Z.ltb_lt in Eyx. split; [discriminate|].
        intros E. injection E as -> _. lia.
      * apply Z.ltb_ge in Eyx. assert (x = y) by lia. subst y.
        rewrite (IH b Hlen). split; [intros ->; reflexivity|].
        intros E. injection E as ->. reflexivity.
Qed.

(** X4. [Compare] is a total order on identifiers: it returns -1, 0 or
    1; 0 exactly for equal identifiers; swapping the arguments negates the
    result; and "compares below" is transitive. *)
Theorem Compare_total_order :
  forall a b c : UULID,
    wf_UULID a -> wf_UULID b -> wf_UULID c ->
    (UULID_Compare a b = -1 \/ UULID_Compare a b = 0 \/ UULID_Compare a b = 1) /\
    (UULID_Compare a b = 0 <-> a = b) /\
    UULID_Compare b a = - UULID_Compare a b /\
    (UULID_Compare a b = -1 -> UULID_Compare b c = -1 ->
     UULID_Compare a c = -1).
Proof.
  intros a b c [La Ba] [Lb Bb] [Lc Bc]. unfold UULID_Compare.
  split; [|split; [|split]].
  - rewrite Compare_be by (try assumption; congruence).
    destruct (be_value a ?= be_value b); auto.
  - apply Compare_eq_iff. congruence.
  - rewrite (Compare_be b a), (Compare_be a b) by (try assumption; congruence).
    rewrite (Z.compare_antisym (be_value a) (be_value b)).
    destruct (be_value a ?= be_value b); reflexivity.
  - rewrite (Compare_be a b), (Compare_be b c), (Compare_be a c)
      by (try assumption; congruence).
    destruct (Z.compare_spec (be_value a) (be_value b)) as [E1|E1|E1];
      try discriminate.
    destruct (Z.compare_spec (be_value b) (be_value c)) as [E2|E2|E2];
      try discriminate.
    intros _ _.
    destruct (Z.compare_spec (be_value a) (be_value c)) as [E|E|E];
      [lia | reflexivity | lia].
Qed.

Lemma be_value_split id :
  wf_UULID id ->
  be_value id = UULID_Timestamp id * 2 ^ 80 + entropy80 id /\
  0 <= entropy80 id < 2 ^ 80.
Proof.
  intros Hwf. pose proof Hwf as [Hlen Hb].
  rewrite UULID_Timestamp_be by exact Hwf. unfold entropy80.
  pose proof (be_value_bound (skipn 6 id) (is_bytes_skipn 6 id Hb)) as Hbound.
  rewrite length_skipn, Hlen in Hbound.
  change (256 ^ Z.of_nat (BinarySize - 6)) with (2 ^ 80) in Hbound.
  split; [|exact Hbound].
  rewrite <- (firstn_skipn 6 id) at 1. rewrite be_value_app.
  rewrite length_skipn, Hlen. reflexivity.
Qed.

Lemma Compare_sort_key a b :
  wf_UULID a -> wf_UULID b ->
  UULID_Compare a b
  = match sort_key a ?= sort_key b with Lt => -1 | Eq => 0 | Gt => 1 end.
Proof.
  intros Ha Hb.
  destruct (be_value_split a Ha) as [Ea _].
  destruct (be_value_split b Hb) as [Eb _].
  destruct Ha as [La Ba]. destruct Hb as [Lb Bb].
  unfold UULID_Compare, sort_key.
  rewrite Compare_be by (try assumption; congruence).
  rewrite Ea, Eb. reflexivity.
Qed.

(** X5. [Compare] orders identifiers by timestamp first and by the
    80-bit entropy value second. *)
Theorem Compare_timestamp_then_entropy :
  forall a b : UULID,
    wf_UULID a -> wf_UULID b ->
    (UULID_Compare a b = -1 <->
     UULID_Timestamp a < UULID_Timestamp b \/
     (UULID_Timestamp a = UULID_Timestamp b /\ entropy80 a < entropy80 b)).
Proof.
  intros a b Ha Hb.
  rewrite Compare_sort_key by assumption. unfold sort_key.
  destruct (be_value_split a Ha) as [_ Ra].
  destruct (be_value_split b Hb) as [_ Rb]. pows.
  generalize dependent (UULID_Timestamp a). intros ta.
  generalize dependent (UULID_Timestamp b). intros tb.
  generalize dependent (entropy80 a). intros ea Ra.
  generalize dependent (entropy80 b). intros eb Rb.
  destruct (Z.compare_spec (ta * 1208925819614629174706176 + ea)
              (tb * 1208925819614629174706176 + eb)) as [E|E|E].
  - split; [discriminate | lia].
  - split; [intros _; lia | reflexivity].
  - split; [discriminate | lia].
Qed.

(** ** Generated identifiers *)

Lemma New_id r now r1 id1 :
  wf_Generator r ->
  Generator_New r now = (r1, (id1, None)) ->
  wf_UULID id1 /\ UULID_Timestamp id1 = Timestamp now /\
  entropy80 id1 = counter80 r1 /\ wf_Generator r1 /\
  ms r1 = Timestamp now.
Proof.
  intros Hwf HN.
  destruct (New_success r now r1 id1 Hwf HN) as (Hwf1 & Hms & Hid & _).
  pose proof Hwf1 as (Hs & Hm & Hh & Hl).
  subst id1. split; [apply wf_UULID_generated|].
  split; [|split; [|split; assumption]].
  - rewrite UULID_Timestamp_be by apply wf_UULID_generated.
    cbn [timestamp_bytes app firstn]. apply be_value_uint48. lia.
  - unfold timestamp_bytes; cbn [app]. apply entropy80_cons6; assumption.
Qed.

Lemma sort_key_range id :
  wf_UULID id -> 0 <= entropy80 id < 2 ^ 80.
Proof. intros Hwf. apply be_value_split. exact Hwf. Qed.

Lemma sort_key_zero : sort_key UULID_zero = 0.
Proof. reflexivity. Qed.

Ltac err_cases Hwf1 :=
  refine (conj _ (conj _ (conj _ (conj _ Hwf1))));
  [auto
  | split; intros; first [discriminate | reflexivity | lia | exfalso; lia]
  | split; intros;
    repeat match goal with H : _ /\ _ |- _ => destruct H end;
    first [discriminate | reflexivity | split; first [lia | assumption]
          | exfalso; lia | exfalso; congruence]
  | intros; first [discriminate | split; reflexivity]].

(** X6. [New] returns no error, [ErrBigTime] or [ErrMonotonicOverflow]
    and nothing else: [ErrBigTime] exactly when the clock is beyond
    [MaxTimestamp] (generator and zero identifier returned unchanged),
    [ErrMonotonicOverflow] exactly when the clock is at the last-seen
    millisecond with the counter at [2^80 - 1]; the generator stays well
    formed in every case. *)
Theorem New_errors :
  forall (r : Generator) (now : time.Time) (r1 : Generator) (id : UULID)
         (err : option error),
    wf_Generator r ->
    Generator_New r now = (r1, (id, err)) ->
    (err = None \/ err = Some ErrBigTime \/ err = Some ErrMonotonicOverflow) /\
    (err = Some ErrBigTime <-> MaxTimestamp < Timestamp now) /\
    (err = Some ErrMonotonicOverflow <->
     Timestamp now = ms r /\ counter80 r = 2 ^ 80 - 1) /\
    (err = Some ErrBigTime -> r1 = r /\ id = UULID_zero) /\
    wf_Generator r1.
Proof.
  intros r now r1 id err Hwf HN.
  pose proof (New_wf r now Hwf) as Hwf1. rewrite HN in Hwf1. cbn [fst] in Hwf1.
  pose proof (counter80_lt r Hwf) as [Hc Hmax].
  pose proof Hwf as (Hs & Hm & Hh & Hl).
  rewrite New_cases in HN by exact Hwf. cbv zeta in HN.
  destruct (Timestamp now >? MaxTimestamp) eqn:Emax.
  - apply Z.gtb_lt in Emax. injection HN as <- <- <-. err_cases Hwf1.
  - rewrite Z.gtb_ltb in Emax. apply Z.ltb_ge in Emax.
    destruct (ms r =? Timestamp now) eqn:Ems.
    + apply Z.eqb_eq in Ems.
      destruct (lo r <? 2 ^ 64 - 1) eqn:Elo.
      * apply Z.ltb_lt in Elo. injection HN as <- <- <-.
        assert (counter80 r <> 2 ^ 80 - 1) by (rewrite Hmax; lia).
        err_cases Hwf1.
      * apply Z.ltb_ge in Elo.
        destruct (hi r <? 2 ^ 16 - 1) eqn:Ehi.
        -- apply Z.ltb_lt in Ehi. injection HN as <- <- <-.
           assert (counter80 r <> 2 ^ 80 - 1) by (rewrite Hmax; lia).
           err_cases Hwf1.
        -- apply Z.ltb_ge in Ehi. injection HN as <- <- <-.
           assert (counter80 r = 2 ^ 80 - 1) by (apply Hmax; unints; lia).
           err_cases Hwf1.
    + apply Z.eqb_neq in Ems. injection HN as <- <- <-. err_cases Hwf1.
Qed.

(** X7. An identifier returned by [New] is sixteen bytes whose
    timestamp is the clock's millisecond and whose entropy is the
    generator's counter; generated after millisecond 0 it compares above
    the zero identifier. *)
Theorem New_identifier :
  forall (r : Generator) (now : time.Time) (r1 : Generator) (id : UULID),
    wf_Generator r ->
    Generator_New r now = (r1, (id, None)) ->
    wf_UULID id /\ UULID_Timestamp id = Timestamp now /\
    entropy80 id = counter80 r1 /\ ms r1 = Timestamp now /\
    (0 < Timestamp now ->
     UULID_Compare UULID_zero id = -1 /\ UULID_Compare id UULID_zero = 1).
Proof.
  intros r now r1 id Hwf HN.
  destruct (New_id r now r1 id Hwf HN) as (Hid & Ht & He & _ & Hms).
  split; [exact Hid|]. split; [exact Ht|]. split; [exact He|].
  split; [exact Hms|]. intros Hpos.
  pose proof (sort_key_range id Hid) as Hr.
  rewrite !Compare_sort_key by (try exact Hid; exact wf_zero).
  rewrite sort_key_zero. unfold sort_key. rewrite Ht. pows.
  split.
  - destruct (Z.compare_spec 0
                (Timestamp now * 1208925819614629174706176 + entropy80 id));
      [lia | reflexivity | lia].
  - destruct (Z.compare_spec
                (Timestamp now * 1208925819614629174706176 + entropy80 id) 0);
      [lia | lia | reflexivity].
Qed.

Lemma New_pair_increasing r now1 now2 r1 id1 r2 id2 :
  wf_Generator r ->
  Generator_New r now1 = (r1, (id1, None)) ->
  Generator_New r1 now2 = (r2, (id2, None)) ->
  Timestamp now1 <= Timestamp now2 ->
  sorts_before id1 id2.
Proof.
  intros Hwf HN1 HN2 Hle.
  destruct (New_id r now1 r1 id1 Hwf HN1) as (Hid1 & Ht1 & He1 & Hwf1 & Hms1).
  destruct (New_id r1 now2 r2 id2 Hwf1 HN2) as (Hid2 & Ht2 & He2 & Hwf2 & Hms2).
  destruct (New_success r1 now2 r2 id2 Hwf1 HN2) as (_ & _ & _ & Hcase).
  pose proof (sort_key_range id1 Hid1) as R1.
  pose proof (sort_key_range id2 Hid2) as R2.
  split; [exact Hid1|]. split; [exact Hid2|].
  rewrite Compare_sort_key by assumption. unfold sort_key.
  rewrite Ht1, Ht2. pows.
  destruct (Z.compare_spec
              (Timestamp now1 * 1208925819614629174706176 + entropy80 id1)
              (Timestamp now2 * 1208925819614629174706176 + entropy80 id2))
    as [E|E|E]; [exfalso | reflexivity | exfalso];
    destruct Hcase as [[Hsame Hc]|[Hdiff _]]; lia.
Qed.

(** X8. A clock that went backwards is not rejected: after a successful
    call, a call at a smaller millisecond succeeds, records the smaller
    millisecond, and its identifier compares below the one issued
    before. *)
Theorem New_backward_clock :
  forall (r : Generator) (now1 now2 : time.Time) (r1 : Generator)
         (id1 : UULID),
    wf_Generator r ->
    Generator_New r now1 = (r1, (id1, None)) ->
    Timestamp now2 < Timestamp now1 ->
    exists r2 id2,
      Generator_New r1 now2 = (r2, (id2, None)) /\
      ms r2 = Timestamp now2 /\
      UULID_Compare id2 id1 = -1 /\ UULID_Compare id1 id2 = 1.
Proof.
  intros r now1 now2 r1 id1 Hwf HN1 Hlt.
  destruct (New_id r now1 r1 id1 Hwf HN1) as (Hid1 & Ht1 & He1 & Hwf1 & Hms1).
  pose proof Hwf1 as (Hs1 & Hm1 & _ & _).
  destruct (Generator_New r1 now2) as [r2 [id2 err]] eqn:HN2.
  assert (Herr : err = None).
  { pose proof HN2 as HN2'. rewrite New_cases in HN2' by exact Hwf1.
    cbv zeta in HN2'.
    destruct (Timestamp now2 >? MaxTimestamp) eqn:Emax;
      [apply Z.gtb_lt in Emax; lia|].
    destruct (ms r1 =? Timestamp now2) eqn:Ems;
      [apply Z.eqb_eq in Ems; lia|].
    injection HN2' as _ _ <-. reflexivity. }
  subst err. exists r2, id2.
  destruct (New_id r1 now2 r2 id2 Hwf1 HN2) as (Hid2 & Ht2 & He2 & Hwf2 & Hms2).
  pose proof (sort_key_range id1 Hid1) as R1.
  pose proof (sort_key_range id2 Hid2) as R2.
  split; [reflexivity|]. split; [exact Hms2|].
  rewrite !Compare_sort_key by assumption. unfold sort_key.
  rewrite Ht1, Ht2. pows. split.
  - destruct (Z.compare_spec
                (Timestamp now2 * 1208925819614629174706176 + entropy80 id2)
                (Timestamp now1 * 1208925819614629174706176 + entropy80 id1));
      [lia | reflexivity | lia].
  - destruct (Z.compare_spec
                (Timestamp now1 * 1208925819614629174706176 + entropy80 id1)
                (Timestamp now2 * 1208925819614629174706176 + entropy80 id2));
      [lia | lia | reflexivity].
Qed.

(** ** Sequences of calls *)

Lemma New_same_ms_ok r now :
  wf_Generator r -> Timestamp now = ms r -> counter80 r < 2 ^ 80 - 1 ->
  exists r1 id1,
    Generator_New r now = (r1, (id1, None)) /\
    counter80 r1 = counter80 r + 1.
Proof.
  intros Hwf Hms Hroom.
  pose proof (counter80_lt r Hwf) as [Hc Hmax].
  pose proof Hwf as (Hs & Hm & Hh & Hl).
  destruct (Generator_New r now) as [r1 [id1 err]] eqn:HN.
  pose proof HN as HN'. rewrite New_cases in HN' by exact Hwf. cbv zeta in HN'.
  destruct (Timestamp now >? MaxTimestamp) eqn:Emax;
    [apply Z.gtb_lt in Emax; lia|].
  rewrite Hms, Z.eqb_refl in HN'.
  assert (Herr : err = None).
  { destruct (lo r <? 2 ^ 64 - 1) eqn:Elo; [congruence|].
    apply Z.ltb_ge in Elo.
    destruct (hi r <? 2 ^ 16 - 1) eqn:Ehi; [congruence|].
    apply Z.ltb_ge in Ehi.
    assert (counter80 r = 2 ^ 80 - 1) by (apply Hmax; unints; lia). lia. }
  subst err. exists r1, id1. split; [reflexivity|].
  destruct (New_success r now r1 id1 Hwf HN) as (_ & Hms1 & _ & [[_ Hc1]|[Hne _]]);
    [exact Hc1 | congruence].
Qed.

(** X9. Calls repeated within the last-seen millisecond, as long as the
    counter has room, all succeed and issue the consecutive entropy values
    [counter + 1, counter + 2, ...] under the same timestamp. *)
Theorem New_seq_same_ms :
  forall (clocks : list time.Time) (r : Generator),
    wf_Generator r ->
    Forall (fun now => Timestamp now = ms r) clocks ->
    counter80 r + Z.of_nat (length clocks) <= 2 ^ 80 - 1 ->
    exists r' ids,
      New_seq r clocks = (r', map (fun id => (id, None)) ids) /\
      length ids = length clocks /\
      counter80 r' = counter80 r + Z.of_nat (length clocks) /\
      forall k, (k < length ids)%nat ->
        entropy80 (nth k ids UULID_zero) = counter80 r + Z.of_nat k + 1 /\
        UULID_Timestamp (nth k ids UULID_zero) = ms r.
Proof.
  induction clocks as [|now rest IH]; intros r Hwf Hall Hroom.
  - exists r, []. cbn [New_seq map length nth].
    split; [reflexivity|]. split; [reflexivity|]. split; [lia|].
    intros k Hk. lia.
  - inversion Hall as [|? ? Hnow Hrest]; subst.
    cbn [length] in Hroom.
    destruct (New_same_ms_ok r now Hwf Hnow ltac:(lia)) as (r1 & id1 & HN & Hc1).
    destruct (New_id r now r1 id1 Hwf HN) as (Hid1 & Ht1 & He1 & Hwf1 & Hms1).
    assert (Hrest1 : Forall (fun now0 => Timestamp now0 = ms r1) rest).
    { rewrite Hms1, Hnow. exact Hrest. }
    destruct (IH r1 Hwf1 Hrest1 ltac:(lia)) as (r' & ids & HS & Hlen & Hc' & Hk).
    exists r', (id1 :: ids). cbn [New_seq map length].
    rewrite HN, HS. split; [reflexivity|]. split; [lia|]. split; [lia|].
    intros [|k] Hlt; cbn [nth].
    + split; [lia | congruence].
    + cbn [length] in Hlt. destruct (Hk k ltac:(lia)) as [E1 E2].
      split; [lia | congruence].
Qed.

Lemma sorts_before_trans : Transitive sorts_before.
Proof.
  intros a b c (Ha & Hb & Hab) (_ & Hc & Hbc).
  split; [exact Ha|]. split; [exact Hc|].
  rewrite Compare_sort_key in * by assumption.
  destruct (Z.compare_spec (sort_key a) (sort_key b)); try discriminate.
  destruct (Z.compare_spec (sort_key b) (sort_key c)); try discriminate.
  destruct (Z.compare_spec (sort_key a) (sort_key c)); [lia | reflexivity | lia].
Qed.

Lemma New_seq_adjacent clocks :
  forall r r' results,
    wf_Generator r ->
    New_seq r clocks = (r', results) ->
    Forall (fun res : result UULID => snd res = None) results ->
    Sorted (fun a b => Timestamp a <= Timestamp b) clocks ->
    Sorted sorts_before (map fst results).
Proof.
  induction clocks as [|now rest IH]; intros r r' results Hwf HS Hok Hsorted.
  - cbn in HS. injection HS as <- <-. constructor.
  - cbn [New_seq] in HS.
    destruct (Generator_New r now) as [r1 [id1 e1]] eqn:HN.
    destruct (New_seq r1 rest) as [r2 out] eqn:HS1.
    injection HS as <- <-.
    inversion Hok as [|? ? He1 Hok']; subst. cbn [snd] in He1. subst e1.
    inversion Hsorted as [|? ? Hsorted' Hhd]; subst.
    pose proof (New_wf r now Hwf) as Hwf1. rewrite HN in Hwf1. cbn [fst] in Hwf1.
    cbn [map fst]. constructor.
    + exact (IH r1 r2 out Hwf1 HS1 Hok' Hsorted').
    + destruct rest as [|now2 rest'].
      * cbn in HS1. injection HS1 as <- <-. constructor.
      * cbn [New_seq] in HS1.
        destruct (Generator_New r1 now2) as [r1' [id2 e2]] eqn:HN2.
        destruct (New_seq r1' rest') as [r2' out'] eqn:HS2.
        injection HS1 as <- <-.
        inversion Hok' as [|? ? He2 _]; subst. cbn [snd] in He2. subst e2.
        inversion Hhd as [|? ? Hle]; subst.
        cbn [map fst]. constructor.
        exact (New_pair_increasing r now now2 r1 id1 r1' id2 Hwf HN HN2 Hle).
Qed.

(** X10. When the clock never goes backwards and no call fails, the
    identifiers of successive calls are strictly increasing under
    [Compare]: each one compares below every later one. *)
Theorem New_seq_sorted :
  forall (clocks : list time.Time) (r r' : Generator)
         (results : list (result UULID)),
    wf_Generator r ->
    New_seq r clocks = (r', results) ->
    Forall (fun res : result UULID => snd res = None) results ->
    Sorted (fun a b => Timestamp a <= Timestamp b) clocks ->
    StronglySorted sorts_before (map fst results).
Proof.
  intros clocks r r' results Hwf HS Hok Hsorted.
  apply Sorted_StronglySorted; [exact sorts_before_trans|].
  exact (New_seq_adjacent clocks r r' results Hwf HS Hok Hsorted).
Qed.

(** X11. The zero millisecond of a new generator counts as last seen: a
    first call at millisecond 0 of the epoch takes the increment path,
    issues entropy 1 and leaves the seed unused. *)
Theorem New_fresh_at_epoch :
  forall (s : Z) (now : time.Time),
    is_uint64 s -> Timestamp now = 0 ->
    exists id,
      Generator_New (NewGeneratorWithSeed s) now
      = (mkGenerator s 0 0 1, (id, None)) /\
      entropy80 id = 1 /\ UULID_Timestamp id = 0.
Proof.
  intros s now Hs Hnow.
  assert (Hwf : wf_Generator (NewGeneratorWithSeed s))
    by (apply wf_NewGeneratorWithSeed; exact Hs).
  destruct (Generator_New (NewGeneratorWithSeed s) now) as [r1 [id err]] eqn:HN.
  pose proof HN as HN'. rewrite New_cases in HN' by exact Hwf.
  cbv zeta in HN'. rewrite Hnow in HN'. cbn in HN'.
  injection HN' as <- <- <-. eexists. split; [reflexivity|].
  split; reflexivity.
Qed.

(** ** Encoders and their buffers *)

(** X12. The encoders into a caller's buffer check its length only: a
    36-byte buffer receives the text of [MarshalText] whatever it held, a
    16-byte buffer receives the identifier, and any other length gives
    [ErrBufferSize] with the buffer untouched. *)
Theorem Marshal_buffers :
  forall (id : UULID) (dst : list Z),
    wf_UULID id ->
    (length dst = 36%nat -> UULID_MarshalTextTo id dst = UULID_MarshalText id) /\
    (length dst <> 36%nat ->
     UULID_MarshalTextTo id dst = (dst, Some ErrBufferSize)) /\
    (length dst = 16%nat -> UULID_MarshalBinaryTo id dst = (id, None)) /\
    (length dst <> 16%nat ->
     UULID_MarshalBinaryTo id dst = (dst, Some ErrBufferSize)).
Proof.
  intros id dst [Hlen _]. split; [|split; [|split]].
  - intros Hd. explode dst Hd 36. explode id Hlen 16.
    run_encoder. reflexivity.
  - intros Hd. unfold UULID_MarshalTextTo.
    destruct (Nat.eqb_spec (length dst) HexEncodedSize); [contradiction|].
    reflexivity.
  - intros Hd. explode dst Hd 16. explode id Hlen 16. reflexivity.
  - intros Hd. unfold UULID_MarshalBinaryTo.
    destruct (Nat.eqb_spec (length dst) BinarySize); [contradiction|].
    reflexivity.
Qed.

Lemma hex_digits_lower v :
  is_byte v -> forallb is_lower_hex (hex_digits v) = true.
Proof.
  intros Hv. apply (forall_below 256 lower_hex_checked);
    [vm_compute; reflexivity | exact Hv].
Qed.

Lemma hex_string_lower vs :
  is_bytes vs -> forallb is_lower_hex (hex_string vs) = true.
Proof.
  induction 1 as [|v vs Hv _ IH].
  - reflexivity.
  - cbn [hex_string flat_map]. rewrite forallb_app.
    rewrite (hex_digits_lower v Hv). exact IH.
Qed.

Lemma MarshalText_dashed id text :
  length id = 16%nat -> UULID_MarshalText id = (text, None) -> dashed text.
Proof.
  intros Hlen Ht. rewrite MarshalText_eq in Ht by exact Hlen.
  injection Ht as <-. explode id Hlen 16. repeat split.
Qed.

(** X13. The text of an identifier is 36 characters, with ['-'] at
    positions 8, 13, 18 and 23 and lower-case hexadecimal digits
    elsewhere; [String], [Value] and [MarshalJSON] give the same text. *)
Theorem MarshalText_format :
  forall id : UULID,
    wf_UULID id ->
    exists text,
      UULID_MarshalText id = (text, None) /\
      length text = 36%nat /\ dashed text /\
      forallb is_lower_hex (digits36 text) = true /\
      UULID_String id = text /\ UULID_Value id = (text, None) /\
      UULID_MarshalJSON id = (text, None).
Proof.
  intros id [Hlen Hb].
  destruct (MarshalText_digits id Hlen) as (text & Ht & Hl & Hd).
  exists text. split; [exact Ht|]. split; [exact Hl|].
  split; [|split; [|split; [|split]]].
  - exact (MarshalText_dashed id text Hlen Ht).
  - rewrite Hd. apply hex_string_lower. exact Hb.
  - unfold UULID_String. fold (UULID_MarshalText id). rewrite Ht. reflexivity.
  - exact Ht.
  - exact Ht.
Qed.

(** ** What [parse] accepts *)

(** X14. [parse] does not read the separators of the 36-character
    form: the result is that of the 32-character form made of its digits,
    and two inputs with the same digits parse alike. *)
Theorem parse_36_separators :
  forall (data data' : list Z) (id : UULID),
    length data = 36%nat -> length data' = 36%nat -> length id = 16%nat ->
    digits36 data = digits36 data' ->
    parse data id = parse (digits36 data) id /\
    parse data id = parse data' id.
Proof.
  intros data data' id Hd Hd' Hid Heq.
  pose proof (digits36_length data Hd) as H32.
  rewrite (parse_36 data) by assumption.
  rewrite (parse_36 data') by assumption.
  rewrite (parse_32 (digits36 data)) by assumption.
  rewrite Heq. split; reflexivity.
Qed.

Lemma fromHexChar_lower c :
  hex.fromHexChar (lower c) = hex.fromHexChar c /\
  (hex.fromHexChar c = None -> lower c = c).
Proof.
  destruct ((65 <=? c) && (c <=? 70)) eqn:E.
  - apply andb_prop in E. destruct E as [E1 E2].
    apply Z.leb_le in E1. apply Z.leb_le in E2.
    assert (L : lower c = c + 32).
    { unfold lower. rewrite (proj2 (Z.leb_le 65 c) E1),
        (proj2 (Z.leb_le c 70) E2). reflexivity. }
    rewrite L. unfold hex.fromHexChar.
    rewrite (proj2 (Z.leb_le 48 (c + 32))) by lia.
    rewrite (proj2 (Z.leb_gt (c + 32) 57)) by lia.
    rewrite (proj2 (Z.leb_le 97 (c + 32))) by lia.
    rewrite (proj2 (Z.leb_le (c + 32) 102)) by lia.
    rewrite (proj2 (Z.leb_le 48 c)) by lia.
    rewrite (proj2 (Z.leb_gt c 57)) by lia.
    rewrite (proj2 (Z.leb_gt 97 c)) by lia.
    rewrite (proj2 (Z.leb_le 65 c)) by lia.
    rewrite (proj2 (Z.leb_le c 70)) by lia.
    cbn [andb]. split; [f_equal; lia | discriminate].
  - unfold lower. rewrite E. split; [reflexivity | intros _; reflexivity].
Qed.

Lemma hex_decoded_lower src :
  hex_decoded (map lower src) = hex_decoded src.
Proof.
  induction src as [|p|p q rest IH] using list_pair_ind.
  - reflexivity.
  - cbn [map hex_decoded].
    destruct (fromHexChar_lower p) as [E N]. rewrite E.
    destruct (hex.fromHexChar p); [reflexivity|]. rewrite N; reflexivity.
  - cbn [map hex_decoded].
    destruct (fromHexChar_lower p) as [Ep Np]. rewrite Ep.
    destruct (hex.fromHexChar p); [|rewrite Np; reflexivity].
    destruct (fromHexChar_lower q) as [Eq Nq]. rewrite Eq.
    destruct (hex.fromHexChar q); [|rewrite Nq; reflexivity].
    rewrite IH. reflexivity.
Qed.

Lemma digits36_map f data :
  digits36 (map f data) = map f (digits36 data).
Proof.
  unfold digits36, slice.
  rewrite !map_app, !skipn_map, !firstn_map. reflexivity.
Qed.

(** X15. [parse] accepts upper-case digits: putting the letters [A] to
    [F] of a 32- or 36-character input in lower case does not change the
    result, errors included. *)
Theorem parse_case_insensitive :
  forall (data : list Z) (id : UULID),
    length id = 16%nat ->
    length data = 32%nat \/ length data = 36%nat ->
    parse (map lower data) id = parse data id.
Proof.
  intros data id Hid [Hd|Hd].
  - rewrite !parse_32 by (rewrite ?length_map; assumption).
    unfold decode_prefix. rewrite hex_decoded_lower. reflexivity.
  - rewrite !parse_36 by (rewrite ?length_map; assumption).
    unfold decode_prefix. rewrite digits36_map, hex_decoded_lower.
    reflexivity.
Qed.

(** ** From text to identifier and back *)

Lemma fromHexChar_value p a :
  hex.fromHexChar p = Some a ->
  0 <= a < 16 /\ nth (Z.to_nat a) hex.hextable 0 = lower p.
Proof.
  intros H.
  assert (T : forall a, 0 <= a < 16 ->
                nth (Z.to_nat a) hex.hextable 0
                = if a <? 10 then a + 48 else a + 87).
  { intros x Hx. apply Z.eqb_eq.
    apply (forall_below 16 hextable_checked); [vm_compute; reflexivity | exact Hx]. }
  unfold hex.fromHexChar in H. unfold lower.
  destruct ((48 <=? p) && (p <=? 57)) eqn:E1.
  - apply andb_prop in E1. destruct E1 as [A B].
    apply Z.leb_le in A. apply Z.leb_le in B. injection H as <-.
    rewrite (proj2 (Z.leb_gt 65 p)) by lia. cbn [andb].
    split; [lia|]. rewrite T by lia.
    rewrite (proj2 (Z.ltb_lt (p - 48) 10)) by lia. lia.
  - destruct ((97 <=? p) && (p <=? 102)) eqn:E2.
    + apply andb_prop in E2. destruct E2 as [A B].
      apply Z.leb_le in A. apply Z.leb_le in B. injection H as <-.
      rewrite (proj2 (Z.leb_gt p 70)) by lia. rewrite andb_false_r.
      split; [lia|]. rewrite T by lia.
      rewrite (proj2 (Z.ltb_ge (p - 97 + 10) 10)) by lia. lia.
    + destruct ((65 <=? p) && (p <=? 70)) eqn:E3; [|discriminate H].
      apply andb_prop in E3. destruct E3 as [A B].
      apply Z.leb_le in A. apply Z.leb_le in B. injection H as <-.
      split; [lia|]. rewrite T by lia.
      rewrite (proj2 (Z.ltb_ge (p - 65 + 10) 10)) by lia. lia.
Qed.

Lemma hex_digits_nibbles a b :
  0 <= a < 16 -> 0 <= b < 16 ->
  hex_digits (byte (Z.lor (Z.shiftl a 4) b))
  = [nth (Z.to_nat a) hex.hextable 0; nth (Z.to_nat b) hex.hextable 0].
Proof.
  intros Ha Hb.
  assert (H : nibbles_checked a = true)
    by (apply (forall_below 16 nibbles_checked); [vm_compute; reflexivity | exact Ha]).
  unfold nibbles_checked in H. rewrite forallb_forall in H.
  specialize (H b). 
  assert (Hin : In b (map Z.of_nat (seq 0 16))).
  { apply in_map_iff. exists (Z.to_nat b). split; [lia|]. apply in_seq. lia. }
  specialize (H Hin).
  destruct (hex_digits (byte (Z.lor (Z.shiftl a 4) b))) as [|x [|y [|z l]]];
    try discriminate H.
  apply andb_prop in H. destruct H as [H1 H2].
  apply Z.eqb_eq in H1. apply Z.eqb_eq in H2. congruence.
Qed.

Lemma hex_decoded_pair p q rest :
  hex_decoded (p :: q :: rest)
  = match hex.fromHexChar p with
    | None => ([], Some (hex_InvalidByteError p))
    | Some a =>
        match hex.fromHexChar q with
        | None => ([], Some (hex_InvalidByteError q))
        | Some b =>
            let '(l, e) := hex_decoded rest in
            (byte (Z.lor (Z.shiftl a 4) b) :: l, e)
        end
    end.
Proof. reflexivity. Qed.

(** Rendering what was decoded gives the digits in lower case. *)
Lemma hex_string_decoded src :
  forall ds, hex_decoded src = (ds, None) -> hex_string ds = map lower src.
Proof.
  induction src as [|p|p q rest IH] using list_pair_ind; intros ds H.
  - injection H as <-. reflexivity.
  - cbn in H. destruct (hex.fromHexChar p); discriminate H.
  - rewrite hex_decoded_pair in H.
    destruct (hex.fromHexChar p) as [a|] eqn:Ep; [|discriminate H].
    destruct (hex.fromHexChar q) as [b|] eqn:Eq; [|discriminate H].
    destruct (hex_decoded rest) as [l e].
    assert (Hds : ds = byte (Z.lor (Z.shiftl a 4) b) :: l) by congruence.
    assert (He : e = None) by congruence. clear H. subst ds e.
    destruct (fromHexChar_value p a Ep) as [Ra Na].
    destruct (fromHexChar_value q b Eq) as [Rb Nb].
    change (hex_string (byte (Z.lor (Z.shiftl a 4) b) :: l))
      with (hex_digits (byte (Z.lor (Z.shiftl a 4) b)) ++ hex_string l).
    rewrite hex_digits_nibbles by assumption. rewrite Na, Nb.
    rewrite (IH l eq_refl). reflexivity.
Qed.

Lemma text36_ext t d :
  length t = 36%nat -> length d = 36%nat ->
  digits36 t = digits36 d -> dashed t -> dashed d -> t = d.
Proof.
  intros Ht Hd Hdig (T1 & T2 & T3 & T4) (D1 & D2 & D3 & D4).
  explode t Ht 36. explode d Hd 36.
  cbn [nth] in *. 
  cbv [digits36 slice firstn skipn Nat.sub app] in Hdig.
  injection Hdig as -> -> -> -> -> -> -> -> -> -> -> -> -> -> -> ->
                    -> -> -> -> -> -> -> -> -> -> -> -> -> -> -> ->.
  subst. reflexivity.
Qed.

Lemma Parse_36_decoded data id :
  length data = 36%nat -> Parse data = (id, None) ->
  hex_decoded (digits36 data) = (id, None) /\ length id = 16%nat.
Proof.
  intros Hd HP. unfold Parse in HP.
  rewrite parse_36 in HP by (try exact Hd; reflexivity).
  pose proof (digits36_length data Hd) as H32.
  assert (Hev : Nat.even (length (digits36 data)) = true)
    by (rewrite H32; reflexivity).
  destruct (hex_decoded_ok (digits36 data) Hev) as [_ Hl].
  unfold decode_prefix in HP.
  destruct (hex_decoded (digits36 data)) as [ds [e|]]; [discriminate HP|].
  cbn [fst snd and_then] in *. specialize (Hl eq_refl).
  assert (Hds : length ds = 16%nat) by lia.
  rewrite skipn_all2 in HP by (rewrite Hds; cbn; lia).
  rewrite app_nil_r in HP. unfold check_timestamp in HP.
  destruct (UULID_Timestamp ds >? MaxTimestamp); [discriminate HP|].
  injection HP as <-. split; [reflexivity | exact Hds].
Qed.

(** X16. Encoding what [Parse] accepted from 36 characters gives the
    input in canonical form: its digits in lower case, separated by
    ['-']; an input already in that form is reproduced exactly. *)
Theorem Parse_then_MarshalText :
  forall (data : list Z) (id : UULID),
    length data = 36%nat -> Parse data = (id, None) ->
    exists text,
      UULID_MarshalText id = (text, None) /\
      length text = 36%nat /\ dashed text /\
      digits36 text = map lower (digits36 data) /\
      (dashed data -> map lower (digits36 data) = digits36 data ->
       text = data).
Proof.
  intros data id Hd HP.
  destruct (Parse_36_decoded data id Hd HP) as [Hdec Hlen].
  destruct (MarshalText_digits id Hlen) as (text & Ht & Hl & Hdig).
  pose proof (MarshalText_dashed id text Hlen Ht) as Hdash.
  assert (E : digits36 text = map lower (digits36 data)).
  { rewrite Hdig. apply hex_string_decoded. exact Hdec. }
  exists text. split; [exact Ht|]. split; [exact Hl|].
  split; [exact Hdash|]. split; [exact E|].
  intros Hdd Hlow. apply text36_ext; try assumption. congruence.
Qed.

(** ** The results of [parse] *)

Lemma In_firstn {A : Type} (x : A) n l : In x (firstn n l) -> In x l.
Proof.
  intros H. rewrite <- (firstn_skipn n l). apply in_or_app. left. exact H.
Qed.

Lemma In_skipn {A : Type} (x : A) n l : In x (skipn n l) -> In x l.
Proof.
  intros H. rewrite <- (firstn_skipn n l). apply in_or_app. right. exact H.
Qed.

Lemma In_digits36 c data : In c (digits36 data) -> In c data.
Proof.
  unfold digits36, slice. intros H.
  repeat (apply in_app_or in H; destruct H as [H|H]);
    apply In_firstn in H; apply In_skipn in H; exact H.
Qed.

Lemma decode_prefix_outcome digits id id' err :
  wf_UULID id -> length digits = 32%nat ->
  decode_prefix digits id >>= check_timestamp = (id', err) ->
  wf_UULID id' /\
  (err = None \/
   exists c, In c digits /\ hex.fromHexChar c = None /\
             err = Some (hex_InvalidByteError c)).
Proof.
  intros Hwf Hd H. pose proof Hwf as [Hlen Hb].
  pose proof (decode_prefix_no_ErrBigTime digits id Hwf Hd) as Hno.
  rewrite H in Hno. cbn [snd] in Hno.
  unfold decode_prefix in H.
  pose proof (hex_decoded_length_le digits) as Hle.
  pose proof (hex_decoded_bytes digits) as Hds.
  assert (Hev : Nat.even (length digits) = true) by (rewrite Hd; reflexivity).
  pose proof (hex_decoded_error digits) as Herr.
  destruct (hex_decoded digits) as [ds e0]. cbn [fst snd] in *.
  assert (Hwf' : wf_UULID (ds ++ skipn (length ds) id)).
  { split.
    - rewrite length_app, length_skipn. unfold BinarySize in *. lia.
    - apply Forall_app. split; [exact Hds | apply is_bytes_skipn; exact Hb]. }
  destruct e0 as [e1|].
  - cbn in H. injection H as <- <-. split; [exact Hwf'|]. right.
    destruct (Herr e1 Hev eq_refl) as (pre & c & post & E1 & _ & E3 & E4 & _).
    exists c. split; [|split; [exact E3 | congruence]].
    rewrite E1. apply in_or_app. right. left. reflexivity.
  - cbn [and_then] in H. unfold check_timestamp in H.
    destruct (UULID_Timestamp (ds ++ skipn (length ds) id) >? MaxTimestamp).
    + injection H as <- <-. contradiction Hno. reflexivity.
    + injection H as <- <-. split; [exact Hwf' | left; reflexivity].
Qed.

(** X17. [parse] leaves a well-formed identifier in the destination,
    failed or not, and its only errors are [ErrDataSize], exactly for the
    lengths other than 16, 32 and 36 and with the destination untouched,
    and the decoder's error for a character of the input that is not a
    hexadecimal digit. *)
Theorem parse_outcomes :
  forall (data : list Z) (id id' : UULID) (err : option error),
    wf_UULID id -> is_bytes data ->
    parse data id = (id', err) ->
    wf_UULID id' /\
    (err = None \/ err = Some ErrDataSize \/
     exists c, In c data /\ hex.fromHexChar c = None /\
               err = Some (hex_InvalidByteError c)) /\
    (err = Some ErrDataSize <->
     length data <> 16%nat /\ length data <> 32%nat /\
     length data <> 36%nat) /\
    (err = Some ErrDataSize -> id' = id).
Proof.
  intros data id id' err Hwf Hdata H. pose proof Hwf as [Hlen Hb].
  destruct (Nat.eq_dec (length data) 16) as [H16|N16].
  { rewrite parse_16 in H by assumption.
    rewrite check_timestamp_ok in H by (split; assumption).
    injection H as <- <-.
    split; [split; assumption|]. split; [left; reflexivity|].
    split; [split; [discriminate | intros [? _]; contradiction] | discriminate]. }
  destruct (Nat.eq_dec (length data) 32) as [H32|N32].
  { rewrite parse_32 in H by assumption.
    destruct (decode_prefix_outcome data id id' err Hwf H32 H) as [W O].
    split; [exact W|]. split; [destruct O as [O|O]; auto|].
    split; [split; [|intros (_ & ? & _); contradiction]|];
      intros ->; destruct O as [O|(c & _ & _ & O)]; discriminate O. }
  destruct (Nat.eq_dec (length data) 36) as [H36|N36].
  { rewrite parse_36 in H by assumption.
    destruct (decode_prefix_outcome (digits36 data) id id' err Hwf
                (digits36_length data H36) H) as [W O].
    split; [exact W|]. split.
    { destruct O as [O|(c & I & F & O)]; [left; exact O|].
      right. right. exists c. split; [apply In_digits36; exact I|].
      split; assumption. }
    split; [split; [|intros (_ & _ & ?); contradiction]|];
      intros ->; destruct O as [O|(c & _ & _ & O)]; discriminate O. }
  rewrite parse_other_length in H by assumption. injection H as <- <-.
  split; [exact Hwf|]. split; [right; left; reflexivity|].
  split; [split; [intros _; repeat split; assumption | reflexivity]|].
  reflexivity.
Qed.

(** X18. [UnmarshalBinary] cannot fail on sixteen bytes, which become
    the identifier; any other length gives [ErrDataSize] and leaves the
    identifier as it was. *)
Theorem UnmarshalBinary_total :
  forall (id : UULID) (data : list Z),
    wf_UULID id -> is_bytes data ->
    (length data = 16%nat -> UULID_UnmarshalBinary id data = (data, None)) /\
    (length data <> 16%nat ->
     UULID_UnmarshalBinary id data = (id, Some ErrDataSize)).
Proof.
  intros id data [Hlen Hb] Hdata. unfold UULID_UnmarshalBinary. split.
  - intros Hd. rewrite Hd. cbn [BinarySize Nat.eqb negb].
    rewrite parse_16 by assumption.
    apply check_timestamp_ok. split; assumption.
  - intros Hd.
    destruct (Nat.eqb_spec (length data) BinarySize); [contradiction|].
    reflexivity.
Qed.

(** ** Time codec *)

(** X19. [Timestamp] drops what is below the millisecond and computes in
    [uint64]: for every time, with seconds [s] and nanoseconds [n], it is
    [(1000 * s + n / 10^6) mod 2^64]. When [1000 * s + n / 10^6] lies in
    [0, 2^64) nothing wraps: [Timestamp] is that number and [Time] of it
    is the time truncated to the millisecond. *)
Theorem Timestamp_truncates :
  forall s n : Z,
    0 <= n < 1000000000 ->
    Timestamp (time.mkTime s n) = (s * 1000 + n / 1000000) mod 2 ^ 64 /\
    (0 <= s * 1000 + n / 1000000 < 2 ^ 64 ->
     Timestamp (time.mkTime s n) = s * 1000 + n / 1000000 /\
     Time (Timestamp (time.mkTime s n))
     = time.mkTime s (n / 1000000 * 1000000)).
Proof.
  intros s n Hn.
  assert (Hq : 0 <= n / 1000000 < 1000).
  { split; [apply Z.div_pos; lia | apply Z.div_lt_upper_bound; lia]. }
  assert (E : Timestamp (time.mkTime s n)
              = (s * 1000 + n / 1000000) mod 2 ^ 64).
  { unfold Timestamp, time.Time_Unix, time.Time_Nanosecond, time.Millisecond.
    cbn [time.sec time.nsec]. rewrite Z.quot_div_nonneg by lia.
    unfold uint64.
    rewrite Z.add_mod_idemp_l, Z.add_mod_idemp_r by (pows; lia).
    rewrite <- Z.add_mod_idemp_l by (pows; lia).
    rewrite Z.mul_mod_idemp_l by (pows; lia).
    rewrite Z.add_mod_idemp_l by (pows; lia). reflexivity. }
  split; [exact E|]. intros Hr.
  assert (E' : Timestamp (time.mkTime s n) = s * 1000 + n / 1000000).
  { rewrite E. apply Z.mod_small. exact Hr. }
  split; [exact E'|]. rewrite E'.
  rewrite Time_fields by exact Hr.
  assert (D : (s * 1000 + n / 1000000) / 1000 = s).
  { rewrite Z.div_add_l by lia. rewrite (Z.div_small (n / 1000000)) by lia.
    lia. }
  assert (M : (s * 1000 + n / 1000000) mod 1000 = n / 1000000).
  { rewrite Z.add_comm, Z.mod_add by lia. apply Z.mod_small. lia. }
  rewrite D, M. reflexivity.
Qed.

(** X20. A time before the epoch wraps around in [Timestamp] to a value
    above [MaxTimestamp], so [SetTime] and [New] reject it with
    [ErrBigTime]. *)
Theorem before_epoch_is_ErrBigTime :
  forall (s n : Z) (r : Generator) (id : UULID),
    - 18446462598732840 <= s < 0 -> 0 <= n < 1000000000 ->
    Timestamp (time.mkTime s n) = 2 ^ 64 + s * 1000 + n / 1000000 /\
    MaxTimestamp < Timestamp (time.mkTime s n) /\
    UULID_SetTime id (time.mkTime s n) = (id, Some ErrBigTime) /\
    Generator_New r (time.mkTime s n) = (r, (UULID_zero, Some ErrBigTime)).
Proof.
  intros s n r id Hs Hn.
  assert (Hq : 0 <= n / 1000000 < 1000).
  { split; [apply Z.div_pos; lia | apply Z.div_lt_upper_bound; lia]. }
  assert (E : Timestamp (time.mkTime s n) = 2 ^ 64 + s * 1000 + n / 1000000).
  { unfold Timestamp, time.Time_Unix, time.Time_Nanosecond, time.Millisecond.
    cbn [time.sec time.nsec]. rewrite Z.quot_div_nonneg by lia.
    unfold uint64. pows.
    rewrite (Z.mod_small (n / 1000000)) by lia.
    rewrite Z.mul_mod_idemp_l by lia.
    replace (s * 1000) with (s * 1000 + 18446744073709551616
                             + (-1) * 18446744073709551616) by lia.
    rewrite Z.mod_add by lia.
    rewrite (Z.mod_small (s * 1000 + 18446744073709551616)) by lia.
    rewrite Z.mod_small by lia. lia. }
  assert (Hbig : MaxTimestamp < Timestamp (time.mkTime s n)).
  { rewrite E. unints. lia. }
  split; [exact E|]. split; [exact Hbig|]. split.
  - unfold UULID_SetTime, UULID_SetTimestamp.
    destruct (Timestamp (time.mkTime s n) >? MaxTimestamp) eqn:G;
      [reflexivity|].
    rewrite Z.gtb_ltb in G. apply Z.ltb_ge in G. lia.
  - apply New_too_large. exact Hbig.
Qed.

Lemma wf_encoded_id : wf_UULID encoded_id.
Proof. split; [reflexivity | apply is_bytes_dec_true; reflexivity]. Defined.

Lemma wf_seeded : wf_Generator (NewGeneratorWithSeed 42).
Proof. unfold wf_Generator; cbn; unints; lia. Defined.

Lemma Compare_total_order_witness :
  wf_UULID UULID_zero /\ wf_UULID encoded_id /\
  UULID_Compare UULID_zero encoded_id = -1 /\
  UULID_Compare encoded_id UULID_zero = - UULID_Compare UULID_zero encoded_id /\
  (UULID_Compare encoded_id encoded_id = 0 <-> encoded_id = encoded_id).
Proof.
  split; [exact wf_zero|]. split; [exact wf_encoded_id|].
  split; [reflexivity|].
  destruct (Compare_total_order UULID_zero encoded_id encoded_id
              wf_zero wf_encoded_id wf_encoded_id) as (_ & _ & H & _).
  destruct (Compare_total_order encoded_id encoded_id encoded_id
              wf_encoded_id wf_encoded_id wf_encoded_id) as (_ & H' & _ & _).
  split; [exact H | exact H'].
Defined.

Lemma Compare_timestamp_then_entropy_witness :
  wf_UULID UULID_zero /\ wf_UULID encoded_id /\
  UULID_Timestamp UULID_zero < UULID_Timestamp encoded_id /\
  UULID_Compare UULID_zero encoded_id = -1.
Proof.
  assert (H : UULID_Timestamp UULID_zero < UULID_Timestamp encoded_id)
    by reflexivity.
  split; [exact wf_zero|]. split; [exact wf_encoded_id|]. split; [exact H|].
  apply (Compare_timestamp_then_entropy UULID_zero encoded_id
           wf_zero wf_encoded_id).
  left. exact H.
Defined.

Lemma New_errors_witness :
  let r := mkGenerator 42 5 65535 18446744073709551615 in
  wf_Generator r /\
  Generator_New r (Time 5)
  = (mkGenerator 42 5 0 0,
     ([0; 0; 0; 0; 0; 5; 0; 0; 0; 0; 0; 0; 0; 0; 0; 0],
      Some ErrMonotonicOverflow)) /\
  Timestamp (Time 5) = ms r /\ counter80 r = 2 ^ 80 - 1.
Proof.
  intros r.
  assert (Hwf : wf_Generator r) by (unfold wf_Generator; cbn; unints; lia).
  assert (HN : Generator_New r (Time 5)
               = (mkGenerator 42 5 0 0,
                  ([0; 0; 0; 0; 0; 5; 0; 0; 0; 0; 0; 0; 0; 0; 0; 0],
                   Some ErrMonotonicOverflow))) by reflexivity.
  split; [exact Hwf|]. split; [exact HN|].
  apply (New_errors r (Time 5) _ _ _ Hwf HN). reflexivity.
Defined.

Lemma New_identifier_witness :
  let r := NewGeneratorWithSeed 42 in
  let now := Time 1617634303663 in
  wf_Generator r /\
  exists r1 id,
    Generator_New r now = (r1, (id, None)) /\
    wf_UULID id /\ UULID_Timestamp id = Timestamp now /\
    UULID_Compare UULID_zero id = -1.
Proof.
  intros r now. split; [exact wf_seeded|].
  destruct (Generator_New r now) as [r1 [id err]] eqn:HN.
  assert (He : err = None) by (vm_compute in HN; congruence).
  subst err. exists r1, id. split; [reflexivity|].
  destruct (New_identifier r now r1 id wf_seeded HN) as (H1 & H2 & _ & _ & H5).
  split; [exact H1|]. split; [exact H2|]. apply H5. reflexivity.
Defined.

Lemma New_backward_clock_witness :
  let r := NewGeneratorWithSeed 42 in
  wf_Generator r /\ Timestamp (Time 1000) < Timestamp (Time 2000) /\
  exists r1 id1 r2 id2,
    Generator_New r (Time 2000) = (r1, (id1, None)) /\
    Generator_New r1 (Time 1000) = (r2, (id2, None)) /\
    UULID_Compare id2 id1 = -1.
Proof.
  intros r. split; [exact wf_seeded|]. split; [reflexivity|].
  destruct (Generator_New r (Time 2000)) as [r1 [id1 err]] eqn:HN.
  assert (He : err = None) by (vm_compute in HN; congruence).
  subst err.
  destruct (New_backward_clock r (Time 2000) (Time 1000) r1 id1 wf_seeded HN
              eq_refl) as (r2 & id2 & H1 & _ & H3 & _).
  exists r1, id1, r2, id2. split; [reflexivity|]. split; [exact H1 | exact H3].
Defined.

Lemma New_seq_same_ms_witness :
  let r := mkGenerator 42 5 0 7 in
  let clocks := [Time 5; Time 5; Time 5] in
  wf_Generator r /\
  exists r' ids,
    New_seq r clocks = (r', map (fun id => (id, None)) ids) /\
    length ids = 3%nat /\ counter80 r' = 10 /\
    entropy80 (nth 2 ids UULID_zero) = 10.
Proof.
  intros r clocks.
  assert (Hwf : wf_Generator r) by (unfold wf_Generator; cbn; unints; lia).
  split; [exact Hwf|].
  destruct (New_seq_same_ms clocks r Hwf) as (r' & ids & H1 & H2 & H3 & H4).
  - repeat constructor.
  - unfold counter80; cbn; unints; lia.
  - exists r', ids. split; [exact H1|]. split; [exact H2|].
    split; [exact H3|]. apply (H4 2%nat). rewrite H2. cbn. lia.
Defined.

Lemma New_seq_sorted_witness :
  let r := NewGeneratorWithSeed 42 in
  let clocks := [Time 5; Time 5; Time 7] in
  wf_Generator r /\
  Forall (fun res : result UULID => snd res = None) (snd (New_seq r clocks)) /\
  StronglySorted sorts_before (map fst (snd (New_seq r clocks))).
Proof.
  intros r clocks.
  assert (Hok : Forall (fun res : result UULID => snd res = None)
                  (snd (New_seq r clocks)))
    by (vm_compute; repeat constructor).
  split; [exact wf_seeded|]. split; [exact Hok|].
  apply (New_seq_sorted clocks r (fst (New_seq r clocks))
           (snd (New_seq r clocks)) wf_seeded).
  - destruct (New_seq r clocks); reflexivity.
  - exact Hok.
  - repeat constructor; discriminate.
Defined.

Lemma New_fresh_at_epoch_witness :
  is_uint64 42 /\ Timestamp (Time 0) = 0 /\
  exists id,
    Generator_New (NewGeneratorWithSeed 42) (Time 0)
    = (mkGenerator 42 0 0 1, (id, None)) /\
    entropy80 id = 1 /\ UULID_Timestamp id = 0.
Proof.
  assert (H : is_uint64 42) by (unints; lia).
  split; [exact H|]. split; [reflexivity|].
  exact (New_fresh_at_epoch 42 (Time 0) H eq_refl).
Defined.

Lemma Marshal_buffers_witness :
  wf_UULID encoded_id /\
  UULID_MarshalTextTo encoded_id (repeat 0 6) = (repeat 0 6, Some ErrBufferSize) /\
  UULID_MarshalBinaryTo encoded_id (repeat 0 6)
  = (repeat 0 6, Some ErrBufferSize) /\
  UULID_MarshalTextTo encoded_id (repeat 7 36) = UULID_MarshalText encoded_id.
Proof.
  split; [exact wf_encoded_id|].
  destruct (Marshal_buffers encoded_id (repeat 0 6) wf_encoded_id)
    as (_ & H1 & _ & H2).
  destruct (Marshal_buffers encoded_id (repeat 7 36) wf_encoded_id)
    as (H3 & _).
  split; [apply H1; discriminate|]. split; [apply H2; discriminate|].
  apply H3. reflexivity.
Defined.

Lemma MarshalText_format_witness :
  wf_UULID encoded_id /\
  exists text,
    UULID_MarshalText encoded_id = (text, None) /\
    length text = 36%nat /\ dashed text /\
    forallb is_lower_hex (digits36 text) = true /\ UULID_String encoded_id = text.
Proof.
  split; [exact wf_encoded_id|].
  destruct (MarshalText_format encoded_id wf_encoded_id)
    as (text & H1 & H2 & H3 & H4 & H5 & _).
  exists text. split; [exact H1|]. split; [exact H2|]. split; [exact H3|].
  split; [exact H4 | exact H5].
Defined.

Lemma parse_36_separators_witness :
  length encoded_upper = 36%nat /\
  digits36 (map lower encoded_upper) = digits36 encoded /\
  parse (map lower encoded_upper) UULID_zero = parse encoded UULID_zero.
Proof.
  assert (H : digits36 (map lower encoded_upper) = digits36 encoded)
    by reflexivity.
  split; [reflexivity|]. split; [exact H|].
  exact (proj2 (parse_36_separators (map lower encoded_upper) encoded
                  UULID_zero eq_refl eq_refl eq_refl H)).
Defined.

Lemma parse_case_insensitive_witness :
  length UULID_zero = 16%nat /\ length encoded_upper = 36%nat /\
  parse (map lower encoded_upper) UULID_zero = parse encoded_upper UULID_zero /\
  parse encoded_upper UULID_zero = (encoded_id, None).
Proof.
  split; [reflexivity|]. split; [reflexivity|]. split; [|reflexivity].
  apply (parse_case_insensitive encoded_upper UULID_zero eq_refl).
  right. reflexivity.
Defined.

Lemma Parse_then_MarshalText_witness :
  length encoded_upper = 36%nat /\
  Parse encoded_upper = (encoded_id, None) /\
  exists text,
    UULID_MarshalText encoded_id = (text, None) /\
    digits36 text = map lower (digits36 encoded_upper) /\ dashed text.
Proof.
  assert (HP : Parse encoded_upper = (encoded_id, None)) by reflexivity.
  split; [reflexivity|]. split; [exact HP|].
  destruct (Parse_then_MarshalText encoded_upper encoded_id eq_refl HP)
    as (text & H1 & _ & H3 & H4 & _).
  exists text. split; [exact H1|]. split; [exact H4 | exact H3].
Defined.

Lemma parse_outcomes_witness :
  wf_UULID UULID_zero /\ is_bytes encoded_bad_digit /\
  exists id',
    parse encoded_bad_digit UULID_zero = (id', Some (hex_InvalidByteError 88)) /\
    wf_UULID id' /\ In 88 encoded_bad_digit.
Proof.
  assert (Hb : is_bytes encoded_bad_digit)
    by (apply is_bytes_dec_true; reflexivity).
  split; [exact wf_zero|]. split; [exact Hb|].
  destruct (parse encoded_bad_digit UULID_zero) as [id' err] eqn:HP.
  assert (He : err = Some (hex_InvalidByteError 88))
    by (vm_compute in HP; congruence).
  subst err. exists id'. split; [reflexivity|].
  destruct (parse_outcomes encoded_bad_digit UULID_zero id' _ wf_zero Hb HP)
    as (H1 & _).
  split; [exact H1|]. cbn. auto 20.
Defined.

Lemma UnmarshalBinary_total_witness :
  wf_UULID UULID_zero /\ is_bytes encoded_id /\ is_bytes encoded /\
  UULID_UnmarshalBinary UULID_zero encoded_id = (encoded_id, None) /\
  UULID_UnmarshalBinary UULID_zero encoded = (UULID_zero, Some ErrDataSize).
Proof.
  assert (H1 : is_bytes encoded_id) by (apply is_bytes_dec_true; reflexivity).
  assert (H2 : is_bytes encoded) by (apply is_bytes_dec_true; reflexivity).
  split; [exact wf_zero|]. split; [exact H1|]. split; [exact H2|]. split.
  - apply (UnmarshalBinary_total UULID_zero encoded_id wf_zero H1). reflexivity.
  - apply (UnmarshalBinary_total UULID_zero encoded wf_zero H2). discriminate.
Defined.

Lemma Timestamp_truncates_witness :
  let t := time.mkTime 1617634303 663999999 in
  let far := time.mkTime 18446744073709552 0 in
  0 <= time.nsec t < 1000000000 /\
  0 <= time.sec t * 1000 + time.nsec t / 1000000 < 2 ^ 64 /\
  Timestamp t = 1617634303663 /\
  Time (Timestamp t) = time.mkTime 1617634303 663000000 /\
  0 <= time.nsec far < 1000000000 /\
  Timestamp far = 384.
Proof.
  intros t far. subst t far. cbn [time.sec time.nsec].
  assert (Hn : 0 <= 663999999 < 1000000000) by lia.
  assert (Hr : 0 <= 1617634303 * 1000 + 663999999 / 1000000 < 2 ^ 64)
    by (split; [discriminate | reflexivity]).
  assert (H0 : 0 <= 0 < 1000000000) by lia.
  split; [exact Hn|]. split; [exact Hr|].
  destruct (Timestamp_truncates 1617634303 663999999 Hn) as [_ H].
  destruct (H Hr) as [H1 H2].
  split; [exact H1|]. split; [exact H2|]. split; [exact H0|].
  destruct (Timestamp_truncates 18446744073709552 0 H0) as [H3 _].
  exact H3.
Defined.

Lemma before_epoch_is_ErrBigTime_witness :
  let t := time.mkTime (-1) 999000000 in
  Timestamp t = 2 ^ 64 - 1 /\
  UULID_SetTime UULID_zero t = (UULID_zero, Some ErrBigTime) /\
  Generator_New (NewGeneratorWithSeed 42) t
  = (NewGeneratorWithSeed 42, (UULID_zero, Some ErrBigTime)).
Proof.
  intros t. subst t.
  destruct (before_epoch_is_ErrBigTime (-1) 999000000
              (NewGeneratorWithSeed 42) UULID_zero)
    as (H1 & _ & H3 & H4); try lia.
  split; [rewrite H1; reflexivity|]. split; [exact H3 | exact H4].
Defined.

(** X21. The 32 digits of an identifier's text, without the separators,
    parse back to the identifier. *)
Theorem Parse_hex32_roundtrip :
  forall id dst : UULID,
    wf_UULID id -> length dst = 16%nat ->
    exists text,
      UULID_MarshalText id = (text, None) /\
      length (digits36 text) = 32%nat /\
      Parse (digits36 text) = (id, None) /\
      parse (digits36 text) dst = (id, None).
Proof.
  intros id dst Hwf Hdst. pose proof Hwf as [Hlen Hb].
  destruct (MarshalText_digits id Hlen) as (text & Ht & Hl & Hdig).
  exists text. split; [exact Ht|].
  assert (H32 : length (digits36 text) = 32%nat)
    by (apply digits36_length; exact Hl).
  split; [exact H32|].
  assert (G : forall d, length d = 16%nat -> parse (digits36 text) d = (id, None)).
  { intros d Hd. rewrite parse_32 by assumption.
    unfold decode_prefix. rewrite Hdig, hex_decoded_hex_string by exact Hb.
    rewrite skipn_all2 by (rewrite Hlen, Hd; apply Nat.le_refl).
    rewrite app_nil_r. cbn [and_then]. apply check_timestamp_ok. exact Hwf. }
  split; [apply G; reflexivity | apply G; exact Hdst].
Qed.

Lemma Parse_hex32_roundtrip_witness :
  wf_UULID encoded_id /\
  exists text,
    UULID_MarshalText encoded_id = (text, None) /\
    length (digits36 text) = 32%nat /\
    Parse (digits36 text) = (encoded_id, None).
Proof.
  split; [exact wf_encoded_id|].
  destruct (Parse_hex32_roundtrip encoded_id UULID_zero wf_encoded_id eq_refl)
    as (text & H1 & H2 & H3 & _).
  exists text. split; [exact H1|]. split; [exact H2 | exact H3].
Defined.

(** X22. What [Value] and [MarshalJSON] produce is read back by [Scan]
    (as a string or as bytes), [UnmarshalJSON] and [UnmarshalText] into
    the same identifier, whatever the destination held. *)
Theorem Scan_Value_roundtrip :
  forall id dst : UULID,
    wf_UULID id -> length dst = 16%nat ->
    exists text,
      UULID_Value id = (text, None) /\
      UULID_MarshalJSON id = (text, None) /\
      UULID_Scan dst (src_string text) = (id, None) /\
      UULID_Scan dst (src_bytes text) = (id, None) /\
      UULID_UnmarshalJSON dst text = (id, None) /\
      UULID_UnmarshalText dst text = (id, None).
Proof.
  intros id dst Hwf Hdst. pose proof Hwf as [Hlen Hb].
  destruct (MarshalText_digits id Hlen) as (text & Ht & Hl & Hdig).
  pose proof (parse_hex_string_36 text id dst Hwf Hdst Hl Hdig) as HP.
  exists text. split; [exact Ht|]. split; [exact Ht|].
  split; [exact HP|]. split; [exact HP|]. split; exact HP.
Qed.

Lemma Scan_Value_roundtrip_witness :
  wf_UULID encoded_id /\
  exists text,
    UULID_Value encoded_id = (text, None) /\
    UULID_Scan UULID_zero (src_string text) = (encoded_id, None).
Proof.
  split; [exact wf_encoded_id|].
  destruct (Scan_Value_roundtrip encoded_id UULID_zero wf_encoded_id eq_refl)
    as (text & H1 & _ & H3 & _).
  exists text. split; [exact H1 | exact H3].
Defined.

(** ** Failed decodes, entry point by entry point *)

(** Each decoded byte is [(a << 4) | b] for the values [a] and [b] of the
    two digits at its place. *)
Lemma hex_decoded_nth src :
  forall i,
    (i < length (fst (hex_decoded src)))%nat ->
    exists a b,
      hex.fromHexChar (nth (2 * i) src 0) = Some a /\
      hex.fromHexChar (nth (2 * i + 1) src 0) = Some b /\
      nth i (fst (hex_decoded src)) 0 = byte (Z.lor (Z.shiftl a 4) b).
Proof.
  induction src as [|p|p q rest IH] using list_pair_ind; intros i Hi.
  - cbn in Hi. lia.
  - cbn in Hi. destruct (hex.fromHexChar p); cbn in Hi; lia.
  - rewrite hex_decoded_pair in Hi |- *.
    destruct (hex.fromHexChar p) as [a|] eqn:Ep; [|cbn in Hi; lia].
    destruct (hex.fromHexChar q) as [b|] eqn:Eq; [|cbn in Hi; lia].
    destruct (hex_decoded rest) as [l e] eqn:Er. cbn [fst length] in *.
    destruct i as [|i].
    + exists a, b. cbn [Nat.mul Nat.add nth]. repeat split; assumption.
    + destruct (IH i ltac:(lia)) as (a' & b' & E1 & E2 & E3).
      exists a', b'.
      replace (2 * S i)%nat with (S (S (2 * i))) by lia.
      replace (S (S (2 * i)) + 1)%nat with (S (S (2 * i + 1))) by lia.
      cbn [nth]. repeat split; assumption.
Qed.

Lemma div2_lt_16 n : (n < 32)%nat -> (Nat.div2 n < 16)%nat.
Proof.
  intros H. do 32 (destruct n as [|n]; [cbn; lia|]). lia.
Qed.

(** A failed decode of 32 digits: the error is the decoder's, for the
    first character that is not a digit, and the pairs of digits before
    it are already stored. *)
Lemma decode_prefix_partial digits id id' e :
  wf_UULID id -> length digits = 32%nat ->
  decode_prefix digits id >>= check_timestamp = (id', Some e) ->
  exists pre bad post,
    digits = pre ++ bad :: post /\ forallb is_hex pre = true /\
    hex.fromHexChar bad = None /\ e = hex_InvalidByteError bad /\
    (Nat.div2 (length pre) < 16)%nat /\
    (forall i, (i < Nat.div2 (length pre))%nat ->
       exists a b,
         hex.fromHexChar (nth (2 * i) digits 0) = Some a /\
         hex.fromHexChar (nth (2 * i + 1) digits 0) = Some b /\
         nth i id' 0 = byte (Z.lor (Z.shiftl a 4) b)) /\
    skipn (Nat.div2 (length pre)) id' = skipn (Nat.div2 (length pre)) id /\
    (id' = id <->
     firstn (Nat.div2 (length pre)) id' = firstn (Nat.div2 (length pre)) id).
Proof.
  intros Hwf Hd H.
  pose proof (decode_prefix_no_ErrBigTime digits id Hwf Hd) as Hno.
  rewrite H in Hno. cbn [snd] in Hno.
  unfold decode_prefix in H.
  assert (Hev : Nat.even (length digits) = true) by (rewrite Hd; reflexivity).
  pose proof (hex_decoded_error digits) as Herr.
  pose proof (hex_decoded_nth digits) as Hnth.
  destruct (hex_decoded digits) as [ds e0]. cbn [fst snd] in *.
  destruct e0 as [e1|].
  - cbn in H. injection H as <- <-.
    destruct (Herr e1 Hev eq_refl) as (pre & bad & post & E1 & E2 & E3 & E4 & E5).
    exists pre, bad, post.
    split; [exact E1|]. split; [exact E2|]. split; [exact E3|].
    split; [exact E4|]. rewrite <- E5.
    assert (Hpre : (length pre < 32)%nat).
    { rewrite E1, length_app in Hd. cbn [length] in Hd. lia. }
    assert (Hk : (length ds < 16)%nat) by (rewrite E5; apply div2_lt_16; exact Hpre).
    split; [exact Hk|]. split; [|split].
    + intros i Hi. destruct (Hnth i Hi) as (a & b & A & B & C).
      exists a, b. split; [exact A|]. split; [exact B|].
      rewrite app_nth1 by exact Hi. exact C.
    + rewrite skipn_app, Nat.sub_diag, skipn_all. reflexivity.
    + split; [intros ->; reflexivity|].
      intros Hf. rewrite firstn_app, Nat.sub_diag, firstn_all in Hf.
      cbn [firstn] in Hf. rewrite app_nil_r in Hf.
      transitivity (firstn (length ds) id ++ skipn (length ds) id);
        [f_equal; exact Hf | apply firstn_skipn].
  - cbn [and_then] in H. unfold check_timestamp in H.
    destruct (UULID_Timestamp (ds ++ skipn (length ds) id) >? MaxTimestamp).
    + injection H as _ <-. contradiction Hno. reflexivity.
    + discriminate H.
Qed.

Lemma check_timestamp_rejects (x : UULID) :
  snd (check_timestamp x) = Some ErrBigTime
  <-> MaxTimestamp < UULID_Timestamp x.
Proof.
  unfold check_timestamp.
  destruct (UULID_Timestamp x >? MaxTimestamp) eqn:E; cbn [snd].
  - apply Z.gtb_lt in E. split; [intros _; exact E | reflexivity].
  - rewrite Z.gtb_ltb in E. apply Z.ltb_ge in E.
    split; [discriminate | lia].
Qed.

Lemma decode_call_eq_binary c :
  c = call_UnmarshalBinary \/ c <> call_UnmarshalBinary.
Proof. destruct c; [left; reflexivity | right; discriminate ..]. Qed.

Lemma run_decode_call_parse c id data :
  c <> call_UnmarshalBinary -> run_decode_call c id data = parse data id.
Proof. intros Hc. destruct c; try reflexivity. contradiction Hc. reflexivity. Qed.

Lemma UnmarshalBinary_failure id data id' e :
  wf_UULID id -> is_bytes data ->
  UULID_UnmarshalBinary id data = (id', Some e) ->
  e = ErrDataSize /\ id' = id.
Proof.
  intros [Hlen Hb] Hdata H. unfold UULID_UnmarshalBinary in H.
  destruct (Nat.eqb_spec (length data) BinarySize) as [E|E]; cbn [negb] in H.
  - rewrite parse_16 in H by assumption.
    rewrite check_timestamp_ok in H by (split; assumption). discriminate H.
  - injection H as <- <-. split; reflexivity.
Qed.

(** C10, amended. Decoding in place through [UnmarshalText],
    [UnmarshalJSON] or [Scan] is not atomic when a digit is malformed: the
    call fails with the decoder's error for the first character that is
    not a hexadecimal digit, and the destination already holds the bytes
    decoded from the pairs of digits before it, each [(a << 4) | b] for
    its two digits, followed by its own bytes from there on; it is
    unchanged only if it held those bytes already. The range check that
    follows a clean decode rejects an identifier exactly when its
    timestamp reads above [MaxTimestamp] and so passes every sixteen
    bytes: no call fails with [ErrBigTime]. [UnmarshalBinary] fails only
    with [ErrDataSize], and with that error the destination is as it
    was, whatever the call. *)
Theorem decode_failure_partial_write :
  forall (c : decode_call) (data : list Z) (id id' : UULID) (e : error),
    wf_UULID id -> is_bytes data ->
    run_decode_call c id data = (id', Some e) ->
    (forall x : UULID,
        snd (check_timestamp x) = Some ErrBigTime
        <-> MaxTimestamp < UULID_Timestamp x) /\
    (forall x : UULID, wf_UULID x -> check_timestamp x = (x, None)) /\
    e <> ErrBigTime /\
    (c = call_UnmarshalBinary -> e = ErrDataSize /\ id' = id) /\
    (e = ErrDataSize -> id' = id) /\
    (e <> ErrDataSize ->
     c <> call_UnmarshalBinary /\
     (length data = 32%nat \/ length data = 36%nat) /\
     exists pre bad post,
       text_digits data = pre ++ bad :: post /\ forallb is_hex pre = true /\
       hex.fromHexChar bad = None /\ e = hex_InvalidByteError bad /\
       (Nat.div2 (length pre) < 16)%nat /\
       (forall i, (i < Nat.div2 (length pre))%nat ->
          exists a b,
            hex.fromHexChar (nth (2 * i) (text_digits data) 0) = Some a /\
            hex.fromHexChar (nth (2 * i + 1) (text_digits data) 0) = Some b /\
            nth i id' 0 = byte (Z.lor (Z.shiftl a 4) b)) /\
       skipn (Nat.div2 (length pre)) id' = skipn (Nat.div2 (length pre)) id /\
       (id' = id <->
        firstn (Nat.div2 (length pre)) id'
        = firstn (Nat.div2 (length pre)) id)).
Proof.
  intros c data id id' e Hwf Hdata H. pose proof Hwf as [Hlen Hb].
  assert (Hbin : c = call_UnmarshalBinary -> e = ErrDataSize /\ id' = id).
  { intros ->. exact (UnmarshalBinary_failure id data id' e Hwf Hdata H). }
  assert (Hbig : e <> ErrBigTime).
  { destruct (decode_call_eq_binary c) as [Hc|Hc].
    - destruct (Hbin Hc) as [-> _]. discriminate.
    - rewrite run_decode_call_parse in H by exact Hc.
      pose proof (parse_no_ErrBigTime data id Hwf Hdata) as Hno.
      rewrite H in Hno. cbn [snd] in Hno. congruence. }
  assert (Hsame : e = ErrDataSize -> id' = id).
  { intros ->. destruct (decode_call_eq_binary c) as [Hc|Hc].
    - apply (Hbin Hc).
    - rewrite run_decode_call_parse in H by exact Hc.
      destruct (Nat.eq_dec (length data) 16) as [H16|N16].
      { rewrite parse_16 in H by assumption.
        rewrite check_timestamp_ok in H by (split; assumption). discriminate H. }
      destruct (Nat.eq_dec (length data) 32) as [H32|N32].
      { rewrite parse_32 in H by assumption.
        destruct (decode_prefix_partial data id id' ErrDataSize Hwf H32 H)
          as (_ & bad & _ & _ & _ & _ & E & _). discriminate E. }
      destruct (Nat.eq_dec (length data) 36) as [H36|N36].
      { rewrite parse_36 in H by assumption.
        destruct (decode_prefix_partial (digits36 data) id id' ErrDataSize Hwf
                    (digits36_length data H36) H)
          as (_ & bad & _ & _ & _ & _ & E & _). discriminate E. }
      rewrite parse_other_length in H by assumption. congruence. }
  split; [exact check_timestamp_rejects|].
  split; [exact check_timestamp_ok|].
  split; [exact Hbig|]. split; [exact Hbin|]. split; [exact Hsame|].
  intros Hne.
  assert (Hc : c <> call_UnmarshalBinary).
  { intros Hc. destruct (Hbin Hc) as [E _]. contradiction. }
  split; [exact Hc|].
  rewrite run_decode_call_parse in H by exact Hc. unfold text_digits.
  destruct (Nat.eq_dec (length data) 16) as [H16|N16].
  { rewrite parse_16 in H by assumption.
    rewrite check_timestamp_ok in H by (split; assumption). discriminate H. }
  destruct (Nat.eq_dec (length data) 32) as [H32|N32].
  { split; [left; exact H32|].
    rewrite H32. cbn [Nat.eqb]. rewrite parse_32 in H by assumption.
    exact (decode_prefix_partial data id id' e Hwf H32 H). }
  destruct (Nat.eq_dec (length data) 36) as [H36|N36].
  { split; [right; exact H36|].
    rewrite H36. cbn [Nat.eqb]. rewrite parse_36 in H by assumption.
    exact (decode_prefix_partial (digits36 data) id id' e Hwf
             (digits36_length data H36) H). }
  rewrite parse_other_length in H by assumption.
  injection H as _ <-. contradiction Hne. reflexivity.
Qed.

Lemma decode_failure_partial_write_witness :
  let id := UULID_zero in
  let id' := [1; 120; 162; 132; 158; 0; 0; 0; 0; 0; 0; 0; 0; 0; 0; 0] in
  wf_UULID id /\ is_bytes encoded_bad_digit /\
  run_decode_call call_UnmarshalText id encoded_bad_digit
  = (id', Some (hex_InvalidByteError 88)) /\
  id' <> id /\
  exists pre bad post,
    text_digits encoded_bad_digit = pre ++ bad :: post /\
    forallb is_hex pre = true /\ hex.fromHexChar bad = None /\
    hex_InvalidByteError 88 = hex_InvalidByteError bad /\
    (Nat.div2 (length pre) < 16)%nat /\
    skipn (Nat.div2 (length pre)) id' = skipn (Nat.div2 (length pre)) id /\
    firstn (Nat.div2 (length pre)) id' <> firstn (Nat.div2 (length pre)) id.
Proof.
  intros id id'.
  assert (Hwf : wf_UULID id).
  { split; [reflexivity | apply is_bytes_dec_true; reflexivity]. }
  assert (Hb : is_bytes encoded_bad_digit)
    by (apply is_bytes_dec_true; reflexivity).
  assert (Hrun : run_decode_call call_UnmarshalText id encoded_bad_digit
                 = (id', Some (hex_InvalidByteError 88))) by reflexivity.
  assert (Hne : id' <> id) by discriminate.
  split; [exact Hwf|]. split; [exact Hb|]. split; [exact Hrun|].
  split; [exact Hne|].
  destruct (decode_failure_partial_write call_UnmarshalText encoded_bad_digit
              id id' _ Hwf Hb Hrun) as (_ & _ & _ & _ & _ & Hhex).
  destruct Hhex as (_ & _ & pre & bad & post & E1 & E2 & E3 & E4 & E5 & _ & E7 & E8).
  - discriminate.
  - exists pre, bad, post.
    split; [exact E1|]. split; [exact E2|]. split; [exact E3|].
    split; [exact E4|]. split; [exact E5|]. split; [exact E7|].
    intros Hf. apply Hne. apply E8. exact Hf.
Defined.

(** C10 as stated fails: no in-place decode of bytes fails at the range
    check, and a failed [UnmarshalBinary] has the destination as it was.
    A malformed digit need not change the destination either: in the
    first pair of the 36-character form nothing has been stored yet, and
    further on (here in the second group) the five bytes stored are the
    ones the destination held. *)
Lemma decode_failure_unchanged :
  (forall (c : decode_call) (id : UULID) (data : list Z) (id' : UULID),
      wf_UULID id -> is_bytes data ->
      run_decode_call c id data <> (id', Some ErrBigTime)) /\
  (forall (id : UULID) (data : list Z) (id' : UULID) (e : error),
      wf_UULID id -> is_bytes data ->
      UULID_UnmarshalBinary id data = (id', Some e) ->
      e = ErrDataSize /\ id' = id) /\
  wf_UULID encoded_id /\
  is_bytes encoded_bad_second /\ length encoded_bad_second = 36%nat /\
  run_decode_call call_UnmarshalText encoded_id encoded_bad_second
  = (encoded_id, Some (hex_InvalidByteError 88)) /\
  is_bytes encoded_bad_digit /\ length encoded_bad_digit = 36%nat /\
  run_decode_call call_UnmarshalText encoded_id encoded_bad_digit
  = (encoded_id, Some (hex_InvalidByteError 88)).
Proof.
  split; [|split].
  - intros c id data id' Hwf Hdata H.
    destruct (decode_call_eq_binary c) as [Hc|Hc].
    + subst c.
      destruct (UnmarshalBinary_failure id data id' _ Hwf Hdata H) as [E _].
      discriminate E.
    + rewrite run_decode_call_parse in H by exact Hc.
      apply (parse_no_ErrBigTime data id Hwf Hdata). rewrite H. reflexivity.
  - exact UnmarshalBinary_failure.
  - split; [split; [reflexivity | apply is_bytes_dec_true; reflexivity]|].
    split; [apply is_bytes_dec_true; reflexivity|].
    split; [reflexivity|]. split; [reflexivity|].
    split; [apply is_bytes_dec_true; reflexivity|].
    split; reflexivity.
Qed.
